(** * Discussion orchestrator of [server.py]: a shallow embedding

    The development follows [src/server.py]:
    - Python [str] values are lists of Unicode code points, so that the
      slices [s[:50]] and [s[:200]] count characters as Python does;
    - the sqlite database is a record of three tables (lists of rows);
    - the generative service, the clock, [uuid.uuid4], [json.loads] and the
      [str()] of a non-string JSON value are external collaborators and are
      the fields of the class [Env]: every theorem holds for all of their
      behaviours;
    - functions that raise return [exc A]; functions that also touch the
      database, the service or the generator's output run in the monad [M]. *)

From Stdlib Require Import String Ascii.
From stdpp Require Import base list numbers sorting.

Set Default Proof Using "Type".

Open Scope nat_scope.

(** ** Python strings *)

Abbreviation str := (list N).

(** Decoding of the UTF-8 bytes of a source literal into code points. *)
Fixpoint utf8_decode (bs : list N) : str :=
  match bs with
  | [] => []
  | b0 :: r0 =>
    if (b0 <? 128)%N then b0 :: utf8_decode r0
    else match r0 with
    | [] => []
    | b1 :: r1 =>
      if (b0 <? 224)%N
      then ((b0 mod 32) * 64 + b1 mod 64)%N :: utf8_decode r1
      else match r1 with
      | [] => []
      | b2 :: r2 =>
        if (b0 <? 240)%N
        then ((b0 mod 16) * 4096 + (b1 mod 64) * 64 + b2 mod 64)%N
               :: utf8_decode r2
        else match r2 with
        | [] => []
        | b3 :: r3 =>
          ((b0 mod 8) * 262144 + (b1 mod 64) * 4096
             + (b2 mod 64) * 64 + b3 mod 64)%N :: utf8_decode r3
        end
      end
    end
  end.

Definition lit (s : string) : str :=
  utf8_decode (N_of_ascii <$> list_ascii_of_string s).

(** [sep.join(parts)] *)
Fixpoint join (sep : str) (parts : list str) : str :=
  match parts with
  | [] => []
  | [p] => p
  | p :: ps => p ++ sep ++ join sep ps
  end.

(** [str.isspace] for one character. *)
Definition py_isspace (c : N) : bool :=
  ((9 <=? c) && (c <=? 13) || (28 <=? c) && (c <=? 32)
   || (c =? 133) || (c =? 160) || (c =? 5760)
   || (8192 <=? c) && (c <=? 8202)
   || (c =? 8232) || (c =? 8233) || (c =? 8239) || (c =? 8287)
   || (c =? 12288))%N.

Fixpoint lstrip (s : str) : str :=
  match s with
  | [] => []
  | c :: r => if py_isspace c then lstrip r else s
  end.

(** [s.strip()] *)
Definition strip (s : str) : str := reverse (lstrip (reverse (lstrip s))).

(** [x in s] for two strings: [x] occurs in [s] as a contiguous run. *)
Fixpoint starts_with (x s : str) : bool :=
  match x, s with
  | [], _ => true
  | _ :: _, [] => false
  | a :: x', b :: s' => (a =? b)%N && starts_with x' s'
  end.

Fixpoint str_contains (x s : str) : bool :=
  starts_with x s ||
  match s with
  | [] => false
  | _ :: s' => str_contains x s'
  end.

(** ** Exceptions *)

Inductive exn :=
| TypeError | KeyError | IndexError | ZeroDivisionError
| JSONDecodeError | IntegrityError.

Definition exc (A : Type) : Type := exn + A.

Abbreviation raise := (@inl exn _).
Abbreviation ok := (@inr exn _).

Definition ebind {A B} (m : exc A) (k : A → exc B) : exc B :=
  match m with
  | inl e => inl e
  | inr a => k a
  end.

Notation "'try!' x := m 'in' k" := (ebind m (λ x, k))
  (at level 10, x name, m at level 100, k at level 200).

(** A list comprehension whose condition can raise. *)
Fixpoint filter_exc {A} (p : A → exc bool) (l : list A) : exc (list A) :=
  match l with
  | [] => ok []
  | a :: l' =>
    try! b := p a in
    try! r := filter_exc p l' in
    ok (if b then a :: r else r)
  end.

(** ** JSON values, as [json.loads] returns them

    A number keeps its literal, which nothing here inspects; an object is the
    list of the items of the resulting dict, its keys distinct. *)

#[warnings="-register-all"] Inductive json :=
| JNull
| JBool (b : bool)
| JNum (literal : str)
| JStr (s : str)
| JList (items : list json)
| JDict (items : list (str * json)).

(** [x in ids] where [x] is a string. *)
Definition py_in (x : str) (ids : json) : exc bool :=
  match ids with
  | JList items =>
    ok (existsb (λ j, match j with JStr s => bool_decide (s = x) | _ => false end)
          items)
  | JDict items => ok (bool_decide (x ∈ items.*1))
  | JStr s => ok (str_contains x s)
  | JNull | JBool _ | JNum _ => raise TypeError
  end.

(** [d[key]] *)
Definition subscript (d : json) (key : str) : exc json :=
  match d with
  | JDict items =>
    match list_find (λ kv, kv.1 = key) items with
    | Some (_, kv) => ok kv.2
    | None => raise KeyError
    end
  | _ => raise TypeError
  end.

(** ** The two regular expressions *)

Definition c_lbracket : N := 91.
Definition c_rbracket : N := 93.
Definition c_lbrace : N := 123.
Definition c_rbrace : N := 125.

Fixpoint drop_until (c : N) (s : str) : str :=
  match s with
  | [] => []
  | a :: r => if (a =? c)%N then s else drop_until c r
  end.

(** The shortest prefix of [s] that ends with [c]. *)
Fixpoint take_through (c : N) (s : str) : option str :=
  match s with
  | [] => None
  | a :: r =>
    if (a =? c)%N then Some [a]
    else match take_through c r with
         | Some t => Some (a :: t)
         | None => None
         end
  end.

(** [re.search(r'\[.*?\]', res, re.DOTALL)]: from the first opening bracket
    to the first closing bracket after it. *)
Definition re_search_list (res : str) : option str :=
  match drop_until c_lbracket res with
  | [] => None
  | o :: r =>
    match take_through c_rbracket r with
    | Some t => Some (o :: t)
    | None => None
    end
  end.

(** [re.search(r'\{.*\}', res, re.DOTALL)]: from the first opening brace to
    the last closing brace after it. *)
Definition re_search_object (res : str) : option str :=
  match drop_until c_lbrace res with
  | [] => None
  | o :: r =>
    match drop_until c_rbrace (reverse r) with
    | [] => None
    | t => Some (o :: reverse t)
    end
  end.

(** ** The agent catalog *)

Record agent := {
  a_id : str;
  a_role : str;
  a_description : str;
  a_style : option str;             (* read with [.get('style', ...)] *)
  a_frameworks : option (list str)  (* read with [.get('frameworks', ...)] *)
}.

Definition defaults : list str :=
  [lit "strategy_consultant"; lit "financial_controller"; lit "tech_lead";
   lit "marketing_strategist"; lit "risk_manager"].

(** ** The database: tables [discussions], [messages] and [roles] *)

Record discussion_row := {
  d_id : str; d_task : str; d_goal : str; d_status : str; d_created_at : str
}.

Record message_row := {
  m_id : N;                (* INTEGER PRIMARY KEY: the rowid *)
  m_discussion_id : str; m_sender : str; m_content : str; m_timestamp : str
}.

Record role_row := {
  r_discussion_id : str; r_role_name : str; r_description : str;
  r_agent_id : str
}.

Record store := {
  discussions : list discussion_row;
  messages : list message_row;
  roles : list role_row
}.

(** [SELECT * FROM discussions WHERE id = ?] with [fetchone()] *)
Definition find_discussion (did : str) (d : store) : option discussion_row :=
  snd <$> list_find (λ r, d_id r = did) (discussions d).

(** The rowid sqlite gives to a row inserted without an id. *)
Definition next_rowid (rows : list message_row) : N :=
  (foldr N.max 0 (m_id <$> rows) + 1)%N.

Fixpoint insert_by_id (m : message_row) (l : list message_row)
  : list message_row :=
  match l with
  | [] => [m]
  | x :: r => if (m_id m <=? m_id x)%N then m :: l else x :: insert_by_id m r
  end.

(** [ORDER BY id ASC] *)
Definition order_by_id (l : list message_row) : list message_row :=
  foldr insert_by_id [] l.

(** ** Requests to the generative service, events, console *)

(** A prompt is kept as the values interpolated into its f-string template;
    the fixed wording around them is not represented. A list that the source
    interpolates through [json.dumps] is kept as the list. *)
Inductive prompt :=
| TeamPrompt (task : str) (simple_pool : list (str * str * str))
| GoalPrompt (task : str)
| CoordinatorPrompt (task phase history : str) (available : list str)
| AgentPrompt (role style frameworks task phase history instruction : str)
| ReportPrompt (task goal full_log : str).

Record request := {
  rq_prompt : prompt;
  rq_temperature : N;      (* in tenths: 0.1 is 1, 0.7 is 7 *)
  rq_json_mode : bool;
  rq_stream : bool
}.

(** What [model.generate_content] does without [stream=True]. *)
Inductive reply :=
| Text (text : str)        (* a response with parts *)
| Blocked                  (* [not response.parts] *)
| Failed (message : str).  (* an exception, with its [str(e)] *)

(** What the generator yields; [_sse_event] frames each one as text. *)
Inductive event :=
| Status (text : str)
| Message (sender content : str)
| StreamStart (sender : str)
| StreamChunk (token : str)
| StreamEnd
| Finished (report : str).

Definition event_type (e : event) : string :=
  match e with
  | Status _ => "status"
  | Message _ _ => "message"
  | StreamStart _ => "stream_start"
  | StreamChunk _ => "stream_chunk"
  | StreamEnd => "stream_end"
  | Finished _ => "finished"
  end.

(** Lines written by [print]. *)
Inductive log_line :=
| GeminiSyncError (message : str)
| GeminiStreamError (message : str)
| TurnError (e : exn).

(** [str.replace('\n', '\\n')] *)
Definition escape_newlines (s : str) : str :=
  s ≫= λ c, if (c =? 10)%N then [92; 110]%N else [c].

(** The framing of an event on the wire (lines 301-303), for a payload that
    is already text; [run_stream] below yields the event itself. *)
Definition _sse_event (type : string) (data : str) : str :=
  lit "event: " ++ lit type ++ [10%N] ++ lit "data: " ++ escape_newlines data
    ++ [10%N; 10%N].

(** ** The payloads of the events (lines 225, 232, 237)

    [json.dumps] of a dict whose keys and values are strings, with the
    default [ensure_ascii=True] and the default separators. *)

(** One digit of ['{0:04x}'.format(n)]. *)
Definition hex_digit (n : N) : N :=
  if (n <? 10)%N then (48 + n)%N else (87 + n)%N.

(** ['\\u{0:04x}'.format(n)] for [n] below 65536. *)
Definition u_escape (n : N) : str :=
  [92; 117; hex_digit (n / 4096 mod 16); hex_digit (n / 256 mod 16);
   hex_digit (n / 16 mod 16); hex_digit (n mod 16)]%N.

(** The replacement of one character by [json]'s [py_encode_basestring_ascii]:
    the short escapes, the characters from space to tilde as they are, and
    [\uXXXX] for the rest, with a surrogate pair above the basic plane. *)
Definition json_escape_char (c : N) : str :=
  if (c =? 34)%N then [92; 34]%N
  else if (c =? 92)%N then [92; 92]%N
  else if (c =? 8)%N then [92; 98]%N
  else if (c =? 12)%N then [92; 102]%N
  else if (c =? 10)%N then [92; 110]%N
  else if (c =? 13)%N then [92; 114]%N
  else if (c =? 9)%N then [92; 116]%N
  else if ((32 <=? c) && (c <=? 126))%N then [c]
  else if (c <? 65536)%N then u_escape c
  else
    let n := (c - 65536)%N in
    u_escape (N.lor 55296 (N.land (N.shiftr n 10) 1023))
      ++ u_escape (N.lor 56320 (N.land n 1023)).

Definition json_dumps_str (s : str) : str :=
  [34%N] ++ (s ≫= json_escape_char) ++ [34%N].

(** [json.dumps({k1: v1, ...})] *)
Definition json_dumps_obj (items : list (str * str)) : str :=
  lit "{"
    ++ join (lit ", ")
         ((λ kv, json_dumps_str kv.1 ++ lit ": " ++ json_dumps_str kv.2)
            <$> items)
    ++ lit "}".

(** What [run_stream] yields for an event (lines 207-253). *)
Definition sse (e : event) : str :=
  match e with
  | Status text => _sse_event "status" text
  | Message sender content =>
    _sse_event "message"
      (json_dumps_obj [(lit "sender", sender); (lit "content", content);
                       (lit "type", lit "pm")])
  | StreamStart sender =>
    _sse_event "stream_start"
      (json_dumps_obj [(lit "sender", sender); (lit "type", lit "agent")])
  | StreamChunk token =>
    _sse_event "stream_chunk" (json_dumps_obj [(lit "token", token)])
  | StreamEnd => _sse_event "stream_end" []
  | Finished report => _sse_event "finished" report
  end.

(** A character from space to tilde. *)
Definition printable (c : N) : Prop := (32 ≤ c ≤ 126)%N.

(** ** Phase of a turn (lines 203-205) *)

Definition phase_of (turn : nat) : str :=
  if turn <=? 3 then lit "DIVERGE (Ideation)"
  else if turn <=? 7 then lit "DEEPEN (Critique & Feasibility)"
  else lit "CONVERGE (Planning)".

(** ** History window (line 200) *)

Definition render_message (m : message_row) : str :=
  lit "[" ++ m_sender m ++ lit "]: " ++ take 200 (m_content m) ++ lit "...".

(** [msgs[-10:]] *)
Definition last10 {A} (l : list A) : list A := drop (length l - 10) l.

Definition history_text_of (msgs : list message_row) : str :=
  join [10%N] (render_message <$> last10 msgs).

(** ** The role map of a running discussion *)

(** A value of [roles_map]: a catalog entry, or the placeholder
    [{'style': 'Expert', 'frameworks': []}]. *)
Inductive agent_def :=
| FromCatalog (a : agent)
| Placeholder.

Definition get_style (d : agent_def) : str :=
  match d with
  | FromCatalog a => default (lit "Expert") (a_style a)
  | Placeholder => lit "Expert"
  end.

Definition get_frameworks (d : agent_def) : list str :=
  match d with
  | FromCatalog a => default [] (a_frameworks a)
  | Placeholder => []
  end.

(** [d[k] = v] on an insertion-ordered dict. *)
Fixpoint dict_set {V} (k : str) (v : V) (d : list (str * V)) : list (str * V) :=
  match d with
  | [] => [(k, v)]
  | (k', v') :: r =>
    if bool_decide (k' = k) then (k', v) :: r else (k', v') :: dict_set k v r
  end.

Fixpoint dict_get {V} (d : list (str * V)) (k : str) : option V :=
  match d with
  | [] => None
  | (k', v) :: r => if bool_decide (k' = k) then Some v else dict_get r k
  end.

(** [l[i]] *)
Definition py_index {A} (l : list A) (i : nat) : exc A :=
  match l !! i with
  | Some x => ok x
  | None => raise IndexError
  end.

(** [a % b] for non-negative operands *)
Definition py_mod (a b : nat) : exc nat :=
  if b =? 0 then raise ZeroDivisionError else ok (a mod b).

(** [next_role not in roles_map], returning the key when it is there. A
    key is a string, so only a JSON string can equal one; a list or an
    object is unhashable. *)
Definition find_role {V} (next_role : json) (roles_map : list (str * V))
  : exc (option str) :=
  match next_role with
  | JStr s => ok (if bool_decide (s ∈ roles_map.*1) then Some s else None)
  | JNull | JBool _ | JNum _ => ok None
  | JList _ | JDict _ => raise TypeError
  end.

Definition nl : str := [10%N].

(** ** The external collaborators

    The catalog loaded at start-up ([AGENT_POOL]), the outside world with
    the generative service, the clock and [uuid.uuid4], and the two library
    functions whose results are taken as given: [json.loads] ([None] when it
    raises) and [str(x)] for a JSON value that is not a string. With
    [stream=True] the service gives the chunk texts, and the [str(e)] of the
    exception that ended the iteration, if one did. *)
Class Env := {
  World : Type;
  AGENT_POOL : list agent;
  generate_content : request → World → reply * World;
  generate_content_stream : request → World → (list str * option str) * World;
  now_isoformat : World → str * World;
  uuid4 : World → str * World;
  json_loads : str → option json;
  py_repr : json → str
}.

Section Server.

Context `{Env}.

(** The machine: the database, the outside world, what was printed, the
    requests sent to the service so far (kept for the statements about
    prompts), and the frame of the running generator: the events it has
    yielded and its local [last_speaker]. *)
Record state := {
  db : store;
  world : World;
  console : list log_line;
  requests : list request;
  out : list event;
  last_speaker : str
}.

Definition set_db (d : store) (s : state) : state :=
  {| db := d; world := world s; console := console s;
     requests := requests s; out := out s; last_speaker := last_speaker s |}.
Definition set_world (w : World) (s : state) : state :=
  {| db := db s; world := w; console := console s;
     requests := requests s; out := out s; last_speaker := last_speaker s |}.
Definition set_console (c : list log_line) (s : state) : state :=
  {| db := db s; world := world s; console := c;
     requests := requests s; out := out s; last_speaker := last_speaker s |}.
Definition set_requests (r : list request) (s : state) : state :=
  {| db := db s; world := world s; console := console s;
     requests := r; out := out s; last_speaker := last_speaker s |}.
Definition set_out (o : list event) (s : state) : state :=
  {| db := db s; world := world s; console := console s;
     requests := requests s; out := o; last_speaker := last_speaker s |}.
Definition set_last_speaker (l : str) (s : state) : state :=
  {| db := db s; world := world s; console := console s;
     requests := requests s; out := out s; last_speaker := l |}.

(** *** The monad of state and exceptions *)

Definition M (A : Type) : Type := state → exc A * state.

Definition ret {A} (a : A) : M A := λ s, (ok a, s).

Definition bind {A B} (m : M A) (k : A → M B) : M B := λ s,
  match m s with
  | (inl e, s') => (inl e, s')
  | (inr a, s') => k a s'
  end.

Notation "'let!' x := m 'in' k" := (bind m (λ x, k))
  (at level 10, x name, m at level 100, k at level 200).
Notation "m ;;; k" := (bind m (λ _, k))
  (at level 100, k at level 200, right associativity).

Definition lift {A} (m : exc A) : M A := λ s, (m, s).

(** [try: m except Exception as e: h e]; nothing done by [m] before it
    raised is undone. *)
Definition try_except {A} (m : M A) (h : exn → M A) : M A := λ s,
  match m s with
  | (inl e, s') => h e s'
  | (inr a, s') => (inr a, s')
  end.

Fixpoint for_each {A} (l : list A) (body : A → M unit) : M unit :=
  match l with
  | [] => ret tt
  | a :: l' => body a ;;; for_each l' body
  end.

Definition yield (e : event) : M unit := λ s,
  (ok tt, set_out (out s ++ [e]) s).

Definition print (l : log_line) : M unit := λ s,
  (ok tt, set_console (console s ++ [l]) s).

Definition assign_last_speaker (l : str) : M unit := λ s,
  (ok tt, set_last_speaker l s).

Definition read_last_speaker : M str := λ s, (ok (last_speaker s), s).

Definition now : M str := λ s,
  let (t, w) := now_isoformat (world s) in (ok t, set_world w s).

Definition new_uuid : M str := λ s,
  let (u, w) := uuid4 (world s) in (ok u, set_world w s).

Definition call_service (rq : request) : M reply := λ s,
  let (r, w) := generate_content rq (world s) in
  (ok r, set_requests (requests s ++ [rq]) (set_world w s)).

Definition call_service_stream (rq : request) : M (list str * option str) :=
  λ s,
  let (r, w) := generate_content_stream rq (world s) in
  (ok r, set_requests (requests s ++ [rq]) (set_world w s)).

(** *** Database statements *)

Definition select_discussion (did : str) : M (option discussion_row) := λ s,
  (ok (find_discussion did (db s)), s).

Definition select_roles (did : str) : M (list role_row) := λ s,
  (ok (filter (λ r, r_discussion_id r = did) (roles (db s))), s).

(** [SELECT * FROM messages WHERE discussion_id = ? ORDER BY id ASC] *)
Definition select_messages_ordered (did : str) : M (list message_row) := λ s,
  (ok (order_by_id (filter (λ m, m_discussion_id m = did) (messages (db s)))),
   s).

(** The same without [ORDER BY]: rows come in table order. *)
Definition select_messages (did : str) : M (list message_row) := λ s,
  (ok (filter (λ m, m_discussion_id m = did) (messages (db s))), s).

(** [id] is the primary key of [discussions]. *)
Definition insert_discussion (d : discussion_row) : M unit := λ s,
  if bool_decide (d_id d ∈ d_id <$> discussions (db s))
  then (raise IntegrityError, s)
  else (ok tt,
        set_db {| discussions := discussions (db s) ++ [d];
                  messages := messages (db s);
                  roles := roles (db s) |} s).

Definition insert_role (r : role_row) : M unit := λ s,
  (ok tt,
   set_db {| discussions := discussions (db s);
             messages := messages (db s);
             roles := roles (db s) ++ [r] |} s).

Definition insert_message (did sender content timestamp : str) : M unit :=
  λ s,
  (ok tt,
   set_db {| discussions := discussions (db s);
             messages := messages (db s) ++
               [{| m_id := next_rowid (messages (db s));
                   m_discussion_id := did; m_sender := sender;
                   m_content := content; m_timestamp := timestamp |}];
             roles := roles (db s) |} s).

Definition _save_msg (did sender content : str) : M unit :=
  let! t := now in insert_message did sender content t.

(** *** LLMClient *)

Definition generate_sync (p : prompt) (temperature : N) (json_mode : bool)
  : M str :=
  let! r := call_service {| rq_prompt := p; rq_temperature := temperature;
                            rq_json_mode := json_mode; rq_stream := false |} in
  match r with
  | Text t => ret (strip t)
  | Blocked =>
    ret (if json_mode then lit "{}" else lit "Error: Blocked content.")
  | Failed msg =>
    print (GeminiSyncError msg) ;;;
    ret (if json_mode then lit "{}" else lit "Error: " ++ msg)
  end.

(** The tokens the generator [generate_stream] yields, in order. *)
Definition generate_stream (p : prompt) : M (list str) :=
  let! r := call_service_stream {| rq_prompt := p; rq_temperature := 7;
                                   rq_json_mode := false; rq_stream := true |} in
  let tokens := filter (λ t : str, t ≠ []) r.1 in
  match r.2 with
  | None => ret tokens
  | Some msg =>
    print (GeminiStreamError msg) ;;;
    ret (tokens ++ [nl ++ lit "[System Error: " ++ msg ++ lit "]"])
  end.

Definition loads (s : str) : exc json :=
  match json_loads s with
  | Some j => ok j
  | None => raise JSONDecodeError
  end.

(** *** Team selection (lines 138-166) *)

(** Line 151. *)
Definition parse_ids (res : str) : exc json :=
  match re_search_list res with
  | Some m => loads m
  | None => loads res
  end.

Definition fill_step (existing : list str) (selected : list agent) (d : str)
  : list agent :=
  if bool_decide (d ∉ existing) && (length selected <? 5) then
    match list_find (λ a, a_id a = d) AGENT_POOL with
    | Some (_, fallback) => selected ++ [fallback]
    | None => selected
    end
  else selected.

(** Lines 152-162. *)
Definition team_of_ids (ids : json) : exc (list agent) :=
  try! selected := filter_exc (λ a, py_in (a_id a) ids) AGENT_POOL in
  ok (take 5 (if length selected <? 5
              then foldl (fill_step (a_id <$> selected)) selected defaults
              else selected)).

(** Lines 165-166. *)
Definition default_team : list agent :=
  filter (λ a, a_id a ∈ defaults) AGENT_POOL.

(** The [try]/[except] of lines 149-166 on the text the service returned. *)
Definition team_of_response (res : str) : list agent :=
  match (try! ids := parse_ids res in team_of_ids ids) with
  | inr team => team
  | inl _ => default_team
  end.

Definition _select_best_team (task : str) : M (list agent) :=
  let simple_pool :=
    (λ a, (a_id a, a_role a, take 50 (a_description a))) <$> AGENT_POOL in
  let! res := generate_sync (TeamPrompt task simple_pool) 1 true in
  ret (team_of_response res).

Definition _define_strategic_goal (task : str) : M str :=
  generate_sync (GoalPrompt task) 7 false.

(** *** create_discussion (lines 112-136) *)

Definition opening_message (goal : str) (selected : list agent) : str :=
  lit "プロジェクトを開始します。" ++ nl ++ nl ++ lit "【戦略ゴール定義】" ++ nl
    ++ goal ++ nl ++ nl ++ lit "【アサインされた専門家チーム（5名）】" ++ nl
    ++ join nl ((λ a, lit "・" ++ a_role a) <$> selected).

Definition create_discussion (task : str)
  : M (str * list (str * str) * str * str) :=
  let! discussion_id := new_uuid in
  let! selected_agents := _select_best_team task in
  let! goal := _define_strategic_goal task in
  let! created := now in
  insert_discussion {| d_id := discussion_id; d_task := task; d_goal := goal;
                       d_status := lit "active"; d_created_at := created |} ;;;
  for_each selected_agents (λ a,
    insert_role {| r_discussion_id := discussion_id; r_role_name := a_role a;
                   r_description := a_description a; r_agent_id := a_id a |}) ;;;
  let roles_desc :=
    foldl (λ d a, dict_set (a_role a) (a_description a) d) [] selected_agents in
  let pm_msg := opening_message goal selected_agents in
  _save_msg discussion_id (lit "PM") pm_msg ;;;
  ret (discussion_id, roles_desc, goal, pm_msg).

(** *** The coordinator decision (lines 255-270) *)

(** Line 268. *)
Definition parse_object (res : str) : exc json :=
  match re_search_object res with
  | Some m => loads m
  | None => loads res
  end.

Definition _pm_brain (task phase history : str) (candidates : list str)
    (last : str) : M json :=
  let available := filter (λ c, c ≠ last) candidates in
  let! res :=
    generate_sync (CoordinatorPrompt task phase history available) 5 true in
  match parse_object res with
  | inr decision => ret decision
  | inl _ =>
    let! first := lift (py_index candidates 0) in
    ret (JDict [(lit "next_speaker", JStr first);
                (lit "instruction", JStr (lit "意見をお願いします。"))])
  end.

(** [f"{x}"] for a JSON value. *)
Definition py_format (x : json) : str :=
  match x with
  | JStr s => s
  | _ => py_repr x
  end.

Definition _construct_agent_prompt (role : str) (d : agent_def)
    (instruction history task phase : str) : prompt :=
  AgentPrompt role (get_style d) (join (lit ", ") (get_frameworks d))
    task phase history instruction.

(** Lines 282-295. *)
Definition _generate_report (did task goal : str) : M str :=
  let! msgs := select_messages did in
  let full_log :=
    join nl ((λ m, m_sender m ++ lit ": " ++ m_content m) <$> msgs) in
  generate_sync (ReportPrompt task goal full_log) 3 false.

(** *** run_stream (lines 176-253) *)

(** Lines 182-185. *)
Definition build_roles_map (roles_rows : list role_row)
  : list (str * agent_def) :=
  foldl (λ roles_map r,
           dict_set (r_role_name r)
             (match list_find (λ a, a_id a = r_agent_id r) AGENT_POOL with
              | Some (_, a) => FromCatalog a
              | None => Placeholder
              end) roles_map)
    [] roles_rows.

(** Lines 213-217: the speaker of the turn. *)
Definition choose_speaker (next_speaker : json)
    (roles_map : list (str * agent_def)) (candidates : list str)
    (turn : nat) : exc str :=
  try! found := find_role next_speaker roles_map in
  match found with
  | Some role => ok role
  | None =>
    try! i := py_mod turn (length candidates) in
    py_index candidates i
  end.

(** Lines 196-211: up to the coordinator decision. *)
Definition turn_decide (did task : str) (roles_map : list (str * agent_def))
    (turn : nat) : M (str * json) :=
  let! msgs := select_messages_ordered did in
  let history_text := history_text_of msgs in
  let phase := phase_of turn in
  yield (Status (lit "Phase: " ++ phase ++ lit " - PM Coordinating...")) ;;;
  let candidates := roles_map.*1 in
  let! last := read_last_speaker in
  let! pm_decision := _pm_brain task phase history_text candidates last in
  ret (history_text, pm_decision).

(** Lines 213-244: from the decision to the end of the turn. *)
Definition turn_speak (did task : str) (roles_map : list (str * agent_def))
    (turn : nat) (history_text : str) (pm_decision : json) : M unit :=
  let phase := phase_of turn in
  let candidates := roles_map.*1 in
  let! next_speaker := lift (subscript pm_decision (lit "next_speaker")) in
  let! instruction := lift (subscript pm_decision (lit "instruction")) in
  let! next_role :=
    lift (choose_speaker next_speaker roles_map candidates turn) in
  assign_last_speaker next_role ;;;
  let pm_content :=
    lit "(" ++ phase ++ lit ") " ++ next_role ++ lit "さん、"
      ++ py_format instruction in
  _save_msg did (lit "PM") pm_content ;;;
  yield (Message (lit "PM") pm_content) ;;;
  yield (Status (next_role ++ lit " is thinking...")) ;;;
  (* [roles_map.get(next_role, {})]: the empty dict reads as the
     placeholder does *)
  let agent_prompt :=
    _construct_agent_prompt next_role
      (default Placeholder (dict_get roles_map next_role))
      (py_format instruction) history_text task phase in
  yield (StreamStart next_role) ;;;
  let! tokens := generate_stream agent_prompt in
  for_each tokens (λ token, yield (StreamChunk token)) ;;;
  yield StreamEnd ;;;
  _save_msg did next_role (concat tokens).
(* [time.sleep(0.5)] ends the turn; it changes nothing of the machine. *)

Definition turn_body (did task : str) (roles_map : list (str * agent_def))
    (turn : nat) : M unit :=
  let! hd := turn_decide did task roles_map turn in
  turn_speak did task roles_map turn hd.1 hd.2.

(** The [try]/[except] around a turn (lines 195-248): the exception is
    printed and the loop goes on. *)
Definition attempt (did task : str) (roles_map : list (str * agent_def))
    (turn : nat) : M unit :=
  try_except (turn_body did task roles_map turn) (λ e, print (TurnError e)).

Definition total_turns : nat := 10.

Definition run_stream (discussion_id : str) : M unit :=
  let! disc := select_discussion discussion_id in
  let! roles_rows := select_roles discussion_id in
  let roles_map := build_roles_map roles_rows in
  match disc with
  | None => ret tt
  | Some disc =>
    let task := d_task disc in
    let goal := d_goal disc in
    assign_last_speaker (lit "PM") ;;;
    for_each (seq 1 total_turns) (attempt discussion_id task roles_map) ;;;
    yield (Status (lit "Synthesizing Final Strategic Report...")) ;;;
    let! report := _generate_report discussion_id task goal in
    yield (Finished report)
  end.

(** A new generator on machine [s]: nothing yielded yet. *)
Definition start_generator (s : state) : state := set_out [] s.

(** The events of a complete run of [run_stream] started on [s]. *)
Definition events_of_run (discussion_id : str) (s : state) : list event :=
  out (run_stream discussion_id (start_generator s)).2.

End Server.

(** ** A scripted instance of the collaborators

    The service answers from a script, one reply per call; the clock and
    [uuid4] count ticks; [json_loads] knows the few texts the scripts use
    and gives on them what [json.loads] gives. *)
Module Scenario.

Record script := {
  sync_replies : list reply;
  stream_replies : list (list str * option str);
  ticks : N
}.

Definition next_sync (_ : request) (w : script) : reply * script :=
  match sync_replies w with
  | [] => (Blocked, w)
  | r :: rs =>
    (r, {| sync_replies := rs; stream_replies := stream_replies w;
           ticks := ticks w |})
  end.

Definition next_stream (_ : request) (w : script)
  : (list str * option str) * script :=
  match stream_replies w with
  | [] => (([], None), w)
  | r :: rs =>
    (r, {| sync_replies := sync_replies w; stream_replies := rs;
           ticks := ticks w |})
  end.

Definition tick (prefix : string) (w : script) : str * script :=
  (lit prefix ++ [(48 + ticks w)%N],
   {| sync_replies := sync_replies w; stream_replies := stream_replies w;
      ticks := (ticks w + 1)%N |}).

(** The text of a coordinator decision naming [who]. *)
Definition pick (who : string) : str :=
  lit "{" ++ [34%N] ++ lit "next_speaker" ++ [34%N] ++ lit ": " ++ [34%N]
    ++ lit who ++ [34%N] ++ lit ", " ++ [34%N] ++ lit "instruction"
    ++ [34%N] ++ lit ": " ++ [34%N] ++ lit "go" ++ [34%N] ++ lit "}".

Definition decision (who : string) : json :=
  JDict [(lit "next_speaker", JStr (lit who));
         (lit "instruction", JStr (lit "go"))].

(** A decision without an instruction, and one whose next_speaker is a
    list. *)
Definition only_speaker : str :=
  lit "{" ++ [34%N] ++ lit "next_speaker" ++ [34%N] ++ lit ": " ++ [34%N]
    ++ lit "Nobody" ++ [34%N] ++ lit "}".

Definition list_speaker : str :=
  lit "{" ++ [34%N] ++ lit "next_speaker" ++ [34%N] ++ lit ": [], "
    ++ [34%N] ++ lit "instruction" ++ [34%N] ++ lit ": " ++ [34%N]
    ++ lit "go" ++ [34%N] ++ lit "}".

(** The text of a list of ids. *)
Definition id_list (ids : list string) : str :=
  lit "[" ++ join (lit ", ") ((λ i, [34%N] ++ lit i ++ [34%N]) <$> ids)
    ++ lit "]".

Definition loads_table : list (str * json) :=
  [(lit "{}", JDict []);
   (lit "[]", JList []);
   (lit "7", JNum (lit "7"));
   (pick "Analyst", decision "Analyst");
   (pick "Builder", decision "Builder");
   (pick "Nobody", decision "Nobody");
   (only_speaker, JDict [(lit "next_speaker", JStr (lit "Nobody"))]);
   (list_speaker,
    JDict [(lit "next_speaker", JList []);
           (lit "instruction", JStr (lit "go"))]);
   (id_list ["tech_lead"%string; "designer"%string],
    JList [JStr (lit "tech_lead"); JStr (lit "designer")]);
   (id_list ["designer"%string; "tech_lead"%string; "designer"%string],
    JList [JStr (lit "designer"); JStr (lit "tech_lead");
           JStr (lit "designer")])].

Definition scripted_loads (s : str) : option json := dict_get loads_table s.

Definition scripted_repr (j : json) : str :=
  match j with
  | JNull => lit "None"
  | JBool true => lit "True"
  | JBool false => lit "False"
  | JNum l => l
  | _ => lit "..."
  end.

Definition env (pool : list agent) : Env := {|
  World := script;
  AGENT_POOL := pool;
  generate_content := next_sync;
  generate_content_stream := next_stream;
  now_isoformat := tick "T";
  uuid4 := tick "d";
  json_loads := scripted_loads;
  py_repr := scripted_repr
|}.

Definition entry (i r : string) : agent :=
  {| a_id := lit i; a_role := lit r; a_description := lit "description";
     a_style := Some (lit "Analytical");
     a_frameworks := Some [lit "SWOT"; lit "PEST"] |}.

(** A catalog with the five default ids and one more. *)
Definition pool6 : list agent :=
  [entry "designer" "Designer";
   entry "strategy_consultant" "Analyst";
   entry "financial_controller" "Builder";
   entry "tech_lead" "Lead";
   entry "marketing_strategist" "Marketer";
   entry "risk_manager" "Guard"].

Definition empty_store : store :=
  {| discussions := []; messages := []; roles := [] |}.

Definition machine (pool : list agent) (d : store) (w : script)
  : @state (env pool) :=
  {| db := d; world := (w : @World (env pool)); console := [];
     requests := []; out := []; last_speaker := [] |}.

(** The machine as [run_stream] has it when the first turn begins. *)
Definition first_turn (pool : list agent) (d : store) (w : script)
  : @state (env pool) :=
  set_last_speaker (lit "PM") (machine pool d w).

Definition the_discussion : discussion_row :=
  {| d_id := lit "d0"; d_task := lit "Launch a subscription coffee box";
     d_goal := lit "goal"; d_status := lit "active";
     d_created_at := lit "T0" |}.

Definition role_of (a : agent) : role_row :=
  {| r_discussion_id := lit "d0"; r_role_name := a_role a;
     r_description := a_description a; r_agent_id := a_id a |}.

Definition opening : message_row :=
  {| m_id := 1; m_discussion_id := lit "d0"; m_sender := lit "PM";
     m_content := lit "opening"; m_timestamp := lit "T1" |}.

(** A discussion with two assigned roles, Analyst and Builder. *)
Definition store2 : store :=
  {| discussions := [the_discussion]; messages := [opening];
     roles := [role_of (entry "strategy_consultant" "Analyst");
               role_of (entry "financial_controller" "Builder")] |}.

(** A discussion with no assigned role. *)
Definition store0 : store :=
  {| discussions := [the_discussion]; messages := [opening]; roles := [] |}.

Definition silent : script :=
  {| sync_replies := []; stream_replies := []; ticks := 0 |}.

Definition says (rs : list reply) : script :=
  {| sync_replies := rs; stream_replies := []; ticks := 0 |}.

(** Ten decisions that alternate between the two roles, then the report;
    the first two speakers stream some text. *)
Definition ten_turns : script :=
  {| sync_replies :=
       [Text (pick "Analyst"); Text (pick "Builder"); Text (pick "Analyst");
        Text (pick "Builder"); Text (pick "Analyst"); Text (pick "Builder");
        Text (pick "Analyst"); Text (pick "Builder"); Text (pick "Analyst");
        Text (pick "Builder"); Text (lit "the report")];
     stream_replies :=
       [([lit "mar"; []; lit "ket"], None); ([lit "cost"], Some (lit "reset"))];
     ticks := 0 |}.

End Scenario.

(** * The vocabulary of the statements *)

(** Ascending id order. *)
Definition by_id (a b : message_row) : Prop := (m_id a ≤ m_id b)%N.

(** What is left of a message in the history: the sender and the first 200
    characters of the content. *)
Definition truncated (m : message_row) : message_row :=
  {| m_id := m_id m; m_discussion_id := m_discussion_id m;
     m_sender := m_sender m; m_content := take 200 (m_content m);
     m_timestamp := m_timestamp m |}.

(** The catalog has each of the five default ids exactly once. *)
Definition has_defaults_once (pool : list agent) : Prop :=
  ∀ d, d ∈ defaults → length (filter (λ a, a_id a = d) pool) = 1.

(** Membership of an id in a parsed list, as [py_in] computes it. *)
Definition named_in (ids : list json) (x : str) : bool :=
  existsb (λ j, match j with JStr s => bool_decide (s = x) | _ => false end) ids.

(** A printed line that is not the report of a failed turn. *)
Definition not_turn_error (l : log_line) : Prop :=
  match l with
  | TurnError _ => False
  | _ => True
  end.

(** An event other than [finished]. *)
Definition not_finished (e : event) : Prop :=
  match e with
  | Finished _ => False
  | _ => True
  end.

(** The number of events of type [t]. *)
Fixpoint count_events (t : string) (evs : list event) : nat :=
  match evs with
  | [] => 0
  | e :: r => (if String.eqb (event_type e) t then 1 else 0) + count_events t r
  end.

(** The senders announced by the [stream_start] events, in order. *)
Definition speakers (evs : list event) : list str :=
  evs ≫= λ e, match e with StreamStart sender => [sender] | _ => [] end.

(** The exceptions reported as [Turn Error] on a console. *)
Definition turn_errors (c : list log_line) : list exn :=
  c ≫= λ l, match l with TurnError e => [e] | _ => [] end.

(** The history text interpolated into a prompt of the turn loop. *)
Definition prompt_history (p : prompt) : option str :=
  match p with
  | CoordinatorPrompt _ _ history _ => Some history
  | AgentPrompt _ _ _ _ _ history _ => Some history
  | _ => None
  end.

(** The text [generate_sync] returns on a reply of the service
    (lines 83-88). *)
Definition sync_text (json_mode : bool) (r : reply) : str :=
  match r with
  | Text t => strip t
  | Blocked => if json_mode then lit "{}" else lit "Error: Blocked content."
  | Failed msg => if json_mode then lit "{}" else lit "Error: " ++ msg
  end.

(** What a reader of the events can put together again: the coordinator
    messages as they are, and for every speaker the chunks between its
    [stream_start] and [stream_end], joined. [current] is the speaker that is
    streaming and what it has streamed so far. *)
Fixpoint transcript_from (current : option (str * str)) (evs : list event)
  : list (str * str) :=
  match evs with
  | [] => []
  | e :: r =>
    match e with
    | Message sender content => (sender, content) :: transcript_from current r
    | StreamStart sender => transcript_from (Some (sender, [])) r
    | StreamChunk token =>
      transcript_from
        (match current with
         | Some (sender, buffer) => Some (sender, buffer ++ token)
         | None => None
         end) r
    | StreamEnd =>
      match current with
      | Some said => said :: transcript_from None r
      | None => transcript_from None r
      end
    | Status _ | Finished _ => transcript_from current r
    end
  end.

Definition transcript (evs : list event) : list (str * str) :=
  transcript_from None evs.



(** A [stream_chunk] event carries some text. *)
Definition chunk_ok (e : event) : Prop :=
  match e with
  | StreamChunk token => token ≠ []
  | _ => True
  end.

(** The instruction of the fallback decision (line 270). *)
Definition generic_instruction : json := JStr (lit "意見をお願いします。").

Section Vocabulary.

Context `{Env}.

(** Every table, the console, the list of requests and the generator's
    output only ever grow at the end; [evolves s s' msgs lines rqs evs] says
    that from [s] to [s'] they grew by these, the tables [discussions] and
    [roles] by nothing. *)
Record evolves (s s' : state) (msgs : list message_row)
    (lines : list log_line) (rqs : list request) (evs : list event)
  : Prop := {
  ev_discussions : discussions (db s') = discussions (db s);
  ev_roles : roles (db s') = roles (db s);
  ev_messages : messages (db s') = messages (db s) ++ msgs;
  ev_console : console s' = console s ++ lines;
  ev_requests : requests s' = requests s ++ rqs;
  ev_out : out s' = out s ++ evs
}.

(** The requests [generate_sync] and [generate_stream] send. *)
Definition sync_request (p : prompt) (t : N) (j : bool) : request :=
  {| rq_prompt := p; rq_temperature := t; rq_json_mode := j;
     rq_stream := false |}.

Definition stream_request (p : prompt) : request :=
  {| rq_prompt := p; rq_temperature := 7; rq_json_mode := false;
     rq_stream := true |}.

(** The request of [_pm_brain]. *)
Definition coordinator_request (task phase history : str)
    (candidates : list str) (last : str) : request :=
  sync_request
    (CoordinatorPrompt task phase history (filter (λ c, c ≠ last) candidates))
    5 true.

(** Lines 213-217 as one function of the decision: the speaker and the
    instruction of the turn, or the exception that ends the turn. *)
Definition turn_choice (pm_decision : json)
    (roles_map : list (str * agent_def)) (turn : nat) : exc (str * json) :=
  try! next_speaker := subscript pm_decision (lit "next_speaker") in
  try! instruction := subscript pm_decision (lit "instruction") in
  try! next_role := choose_speaker next_speaker roles_map roles_map.*1 turn in
  ok (next_role, instruction).

(** The history text of a turn that starts on [s]. *)
Definition history_at (did : str) (s : state) : str :=
  history_text_of
    (order_by_id (filter (λ m, m_discussion_id m = did) (messages (db s)))).

(** The first event of a turn (line 207). *)
Definition phase_status (turn : nat) : event :=
  Status (lit "Phase: " ++ phase_of turn ++ lit " - PM Coordinating...").

(** The coordinator message of a turn (line 222). *)
Definition pm_content (turn : nat) (speaker : str) (instruction : json)
  : str :=
  lit "(" ++ phase_of turn ++ lit ") " ++ speaker ++ lit "さん、"
    ++ py_format instruction.

(** The request for the speaker's response (lines 230-235). *)
Definition agent_request (task : str) (roles_map : list (str * agent_def))
    (turn : nat) (history speaker : str) (instruction : json) : request :=
  stream_request
    (_construct_agent_prompt speaker
       (default Placeholder (dict_get roles_map speaker))
       (py_format instruction) history task (phase_of turn)).

(** What a turn yields after its first status event. *)
Definition speaking_events (turn : nat) (speaker : str) (instruction : json)
    (tokens : list str) : list event :=
  [Message (lit "PM") (pm_content turn speaker instruction);
   Status (speaker ++ lit " is thinking...");
   StreamStart speaker]
    ++ (StreamChunk <$> tokens) ++ [StreamEnd].

(** The two ways a turn that starts on [s] can end on [s']. *)
Inductive turn_outcome (did task : str) (roles_map : list (str * agent_def))
    (turn : nat) (s s' : state) : Prop :=
| turn_done d speaker ins lines tokens i1 t1 i2 t2 :
    (turn_decide did task roles_map turn s).1 = ok (history_at did s, d) →
    turn_choice d roles_map turn = ok (speaker, ins) →
    evolves s s'
      [Build_message_row i1 did (lit "PM") (pm_content turn speaker ins) t1;
       Build_message_row i2 did speaker (concat tokens) t2]
      lines
      [coordinator_request task (phase_of turn) (history_at did s)
         roles_map.*1 (last_speaker s);
       agent_request task roles_map turn (history_at did s) speaker ins]
      (phase_status turn :: speaking_events turn speaker ins tokens) →
    last_speaker s' = speaker →
    Forall not_turn_error lines →
    turn_outcome did task roles_map turn s s'
| turn_failed e lines :
    ((turn_decide did task roles_map turn s).1 = inl e
     ∨ ∃ d, (turn_decide did task roles_map turn s).1
            = ok (history_at did s, d)
            ∧ turn_choice d roles_map turn = inl e) →
    evolves s s' [] (lines ++ [TurnError e])
      [coordinator_request task (phase_of turn) (history_at did s)
         roles_map.*1 (last_speaker s)]
      [phase_status turn] →
    last_speaker s' = last_speaker s →
    Forall not_turn_error lines →
    turn_outcome did task roles_map turn s s'.

(** The turns of the loop, one after the other. *)
Inductive turns_run (did task : str) (roles_map : list (str * agent_def))
  : list nat → state → state → Prop :=
| turns_nil s : turns_run did task roles_map [] s s
| turns_cons turn turns s s1 s2 :
    turn_outcome did task roles_map turn s s1 →
    turns_run did task roles_map turns s1 s2 →
    turns_run did task roles_map (turn :: turns) s s2.

(** The events of a turn that was started. *)
Definition started (turn : nat) (seg : list event) : Prop :=
  ∃ rest, seg = phase_status turn :: rest ∧ Forall not_finished rest.

(** The events of a turn that ran to its end. *)
Definition completed (turn : nat) (seg : list event) : Prop :=
  ∃ speaker ins tokens,
    seg = phase_status turn :: speaking_events turn speaker ins tokens.

(** The request of [_generate_report] on [s]. *)
Definition report_request (did task goal : str) (s : state) : request :=
  sync_request
    (ReportPrompt task goal
       (join nl ((λ m, m_sender m ++ lit ": " ++ m_content m)
                   <$> filter (λ m, m_discussion_id m = did)
                         (messages (db s)))))
    3 false.

(** The status event after the loop (line 251). *)
Definition closing_status : event :=
  Status (lit "Synthesizing Final Strategic Report...").

(** The row [create_discussion] inserts for an agent (lines 128-129). *)
Definition role_row_of (did : str) (a : agent) : role_row :=
  {| r_discussion_id := did; r_role_name := a_role a;
     r_description := a_description a; r_agent_id := a_id a |}.

(** The catalog entries of the default ids, in the order of [defaults]. *)
Definition priority_team : list agent :=
  omap (λ d, snd <$> list_find (λ a, a_id a = d) AGENT_POOL) defaults.

(** The request of [_select_best_team]. *)
Definition team_request (task : str) : request :=
  sync_request
    (TeamPrompt task
       ((λ a, (a_id a, a_role a, take 50 (a_description a))) <$> AGENT_POOL))
    1 true.

(** The value [run_stream] stores in [roles_map] for an agent id
    (lines 184-185). *)
Definition resolve_agent (agent_id : str) : agent_def :=
  match list_find (λ a, a_id a = agent_id) AGENT_POOL with
  | Some (_, a) => FromCatalog a
  | None => Placeholder
  end.

(** The decision [_pm_brain] returns on the text of the service
    (lines 266-270). *)
Definition decision_of (candidates : list str) (res : str) : exc json :=
  match parse_object res with
  | inr decision => ok decision
  | inl _ =>
    try! first := py_index candidates 0 in
    ok (JDict [(lit "next_speaker", JStr first);
               (lit "instruction", JStr (lit "意見をお願いします。"))])
  end.

(** The reply of the service to the coordinator request of a turn that
    starts on [s]. *)
Definition coordinator_reply (did task : str)
    (roles_map : list (str * agent_def)) (turn : nat) (s : state) : reply :=
  (generate_content
     (coordinator_request task (phase_of turn) (history_at did s)
        roles_map.*1 (last_speaker s))
     (world s)).1.

(** [m] keeps the invariant [I] of the machine, whether it returns or
    raises, and what it returns satisfies [V]. *)
Definition keeps (I : state → Prop) {A} (V : A → Prop) (m : M A) : Prop :=
  ∀ s, I s → I (m s).2 ∧ ∀ a, (m s).1 = ok a → V a.

(** An invariant of the machine: [R] of the table of messages and [C] of
    every event yielded so far. *)
Definition machine_ok (R : list message_row → Prop) (C : event → Prop)
    (s : state) : Prop :=
  R (messages (db s)) ∧ Forall C (out s).

End Vocabulary.

(** * Properties *)

(** ** The history window *)

Lemma insert_by_id_perm m l : insert_by_id m l ≡ₚ m :: l.
Proof.
  induction l as [|x r IH]; simpl; [done|].
  destruct (m_id m <=? m_id x)%N; [done|].
  rewrite IH. apply Permutation_swap.
Qed.

Lemma order_by_id_perm l : order_by_id l ≡ₚ l.
Proof.
  induction l as [|x r IH]; simpl; [done|].
  rewrite insert_by_id_perm. by f_equiv.
Qed.

Lemma insert_by_id_sorted m l :
  StronglySorted by_id l → StronglySorted by_id (insert_by_id m l).
Proof.
  induction 1 as [|x r Hr IH Hx]; simpl.
  - repeat constructor.
  - destruct (m_id m <=? m_id x)%N eqn:Hle.
    + apply N.leb_le in Hle. constructor; [by constructor|].
      constructor; [done|].
      eapply Forall_impl; [exact Hx|]. unfold by_id. intros; lia.
    + apply N.leb_gt in Hle. constructor; [done|].
      rewrite insert_by_id_perm. constructor; [|done]. unfold by_id. lia.
Qed.

Lemma order_by_id_sorted l : StronglySorted by_id (order_by_id l).
Proof.
  induction l; simpl; [constructor|]. by apply insert_by_id_sorted.
Qed.

Lemma last10_length {A} (l : list A) : length (last10 l) = length l `min` 10.
Proof. unfold last10. rewrite length_drop. lia. Qed.

Lemma last10_suffix {A} (l : list A) : last10 l `suffix_of` l.
Proof. apply suffix_drop. Qed.

Lemma last10_fmap {A B} (f : A → B) (l : list A) :
  last10 (f <$> l) = f <$> last10 l.
Proof. unfold last10. by rewrite length_fmap, fmap_drop. Qed.

Lemma last10_idemp {A} (l : list A) : last10 (last10 l) = last10 l.
Proof.
  unfold last10 at 1. rewrite last10_length.
  by replace (length l `min` 10 - 10) with 0 by lia.
Qed.

Lemma render_truncated m : render_message (truncated m) = render_message m.
Proof. unfold render_message. simpl. by rewrite take_idemp. Qed.


Lemma history_window msgs :
  history_text_of (truncated <$> last10 msgs) = history_text_of msgs.
Proof.
  unfold history_text_of.
  rewrite last10_fmap, last10_idemp, <- list_fmap_compose.
  f_equal. apply list_fmap_ext. intros _ m _. apply render_truncated.
Qed.

(** ** Phases *)

Lemma phase_of_cases turn :
  phase_of turn = lit "DIVERGE (Ideation)" ∧ turn ≤ 3
  ∨ phase_of turn = lit "DEEPEN (Critique & Feasibility)" ∧ 4 ≤ turn ≤ 7
  ∨ phase_of turn = lit "CONVERGE (Planning)" ∧ 8 ≤ turn.
Proof.
  unfold phase_of.
  destruct (turn <=? 3) eqn:H3; [apply Nat.leb_le in H3; auto|].
  apply Nat.leb_gt in H3.
  destruct (turn <=? 7) eqn:H7; [apply Nat.leb_le in H7|apply Nat.leb_gt in H7].
  - right; left. split; [done|lia].
  - right; right. split; [done|lia].
Qed.

(** ** Team selection *)

Lemma defaults_NoDup : NoDup defaults.
Proof. apply (bool_decide_unpack _). by vm_compute. Qed.

Lemma filter_exc_ext {A} (p q : A → exc bool) l :
  (∀ a, p a = q a) → filter_exc p l = filter_exc q l.
Proof. intros Hpq. induction l as [|a l IH]; simpl; [done|]. by rewrite Hpq, IH. Qed.

Lemma filter_exc_total {A} (b : A → bool) l :
  filter_exc (λ a, ok (b a)) l = ok (filter (λ a, b a = true) l).
Proof.
  induction l as [|a l IH]; simpl; [done|]. rewrite IH. simpl.
  rewrite filter_cons. by destruct (b a); simpl.
Qed.

Lemma named_in_spec ids x : named_in ids x = true ↔ JStr x ∈ ids.
Proof.
  unfold named_in. rewrite existsb_exists. split.
  - intros (j & Hj & Hx). apply list_elem_of_In in Hj.
    destruct j; try done. apply bool_decide_eq_true in Hx. by subst.
  - intros Hx. exists (JStr x). split; [by apply list_elem_of_In|].
    by apply bool_decide_eq_true.
Qed.

Lemma named_in_ext ids ids' x :
  (∀ j, j ∈ ids ↔ j ∈ ids') → named_in ids x = named_in ids' x.
Proof.
  intros Hs. apply eq_true_iff_eq. by rewrite !named_in_spec.
Qed.

(** Counting the elements whose key is in a duplicate-free list. *)
Lemma filter_in_length {A} (f : A → str) (ds : list str) (l : list A) :
  NoDup ds →
  length (filter (λ a, f a ∈ ds) l)
  = sum_list ((λ d, length (filter (λ a, f a = d) l)) <$> ds).
Proof.
  induction 1 as [|d ds Hd Hds IH].
  - simpl. induction l as [|a l IHl]; [done|].
    rewrite filter_cons_False; [done|]. apply not_elem_of_nil.
  - rewrite fmap_cons. cbn [sum_list sum_list_with].
    rewrite <- IH. clear IH. unfold id.
    induction l as [|a l IHl]; [done|].
    rewrite !filter_cons.
    destruct (decide (f a = d)) as [->|Hne].
    + rewrite decide_True by apply list_elem_of_here.
      rewrite decide_False by done. simpl. lia.
    + destruct (decide (f a ∈ ds)) as [Hin|Hout].
      * rewrite decide_True by (by apply list_elem_of_further). simpl. lia.
      * rewrite decide_False; [done|].
        intros [?|?]%elem_of_cons; done.
Qed.

Lemma sum_list_ones {A} (g : A → nat) (l : list A) :
  (∀ x, x ∈ l → g x = 1) → sum_list (g <$> l) = length l.
Proof.
  induction l as [|x l IH]; intros Hg; [done|].
  rewrite fmap_cons. cbn [sum_list sum_list_with length]. unfold id at 1.
  rewrite Hg by apply list_elem_of_here.
  rewrite IH; [done|]. intros y Hy. apply Hg. by apply list_elem_of_further.
Qed.

Lemma filter_known_length {A} (f : A → str) (ds : list str) (l : list A) :
  NoDup ds → length (filter (λ d, d ∈ f <$> l) ds) ≤ length l.
Proof.
  intros Hds. rewrite <- (length_fmap f l).
  apply submseteq_length, NoDup_submseteq.
  - by apply NoDup_filter.
  - intros d Hd. by apply list_elem_of_filter in Hd as [? _].
Qed.

Lemma filter_split_length {A} (P : A → Prop) `{!∀ x, Decision (P x)} (l : list A) :
  length (filter P l) + length (filter (λ x, ¬ P x) l) = length l.
Proof.
  induction l as [|x l IH]; [done|].
  rewrite !filter_cons. destruct (decide (P x)).
  - rewrite decide_False by tauto. simpl. lia.
  - rewrite decide_True by done. simpl. lia.
Qed.

Lemma filter_all {A} (P : A → Prop) `{!∀ x, Decision (P x)} (l : list A) :
  Forall P l → filter P l = l.
Proof.
  induction 1 as [|x l Hx _ IH]; [done|].
  by rewrite filter_cons_True, IH.
Qed.

Lemma filter_none {A} (P : A → Prop) `{!∀ x, Decision (P x)} (l : list A) :
  Forall (λ x, ¬ P x) l → filter P l = [].
Proof.
  induction 1 as [|x l Hx _ IH]; [done|].
  by rewrite filter_cons_False.
Qed.

Section Team.

Context `{Env}.

Lemma fill_length existing ds sel :
  (∀ d, d ∈ ds → is_Some (list_find (λ a, a_id a = d) AGENT_POOL)) →
  length sel ≤ 5 →
  length (foldl (fill_step existing) sel ds)
  = 5 `min` (length sel + length (filter (λ d, d ∉ existing) ds)).
Proof.
  revert sel. induction ds as [|d ds IH]; intros sel Hfind Hsel;
    cbn [foldl].
  - rewrite filter_nil. cbn [length]. lia.
  - assert (Hrest : ∀ d', d' ∈ ds →
              is_Some (list_find (λ a, a_id a = d') AGENT_POOL))
      by (intros; apply Hfind; by apply list_elem_of_further).
    destruct (Hfind d) as [[i fb] Hfb]; [apply list_elem_of_here|].
    unfold fill_step at 2. rewrite Hfb, filter_cons.
    destruct (decide (d ∉ existing)) as [Hd|Hd].
    + rewrite bool_decide_eq_true_2 by done. cbn [andb length].
      destruct (length sel <? 5) eqn:Hlt.
      * apply Nat.ltb_lt in Hlt.
        rewrite IH; [|done|rewrite length_app; cbn [length]; lia].
        rewrite length_app. cbn [length]. lia.
      * apply Nat.ltb_ge in Hlt. rewrite IH by done. lia.
    + rewrite bool_decide_eq_false_2 by done. cbn [andb]. by apply IH.
Qed.

Lemma defaults_found :
  has_defaults_once AGENT_POOL →
  ∀ d, d ∈ defaults → is_Some (list_find (λ a, a_id a = d) AGENT_POOL).
Proof.
  intros Hpool d Hd. specialize (Hpool d Hd).
  destruct (filter (λ a, a_id a = d) AGENT_POOL) as [|a l] eqn:Hf; [done|].
  assert (Ha : a ∈ filter (λ a, a_id a = d) AGENT_POOL)
    by (rewrite Hf; apply list_elem_of_here).
  apply list_elem_of_filter in Ha as [Hid Ha].
  by eapply (list_find_elem_of (λ a, a_id a = d)).
Qed.

Lemma default_team_length :
  has_defaults_once AGENT_POOL → length default_team = 5.
Proof.
  intros Hpool. unfold default_team.
  rewrite filter_in_length by apply defaults_NoDup.
  by rewrite sum_list_ones.
Qed.

Lemma filled_length selected :
  has_defaults_once AGENT_POOL →
  length selected < 5 →
  length (foldl (fill_step (a_id <$> selected)) selected defaults) = 5.
Proof.
  intros Hpool Hlt.
  rewrite fill_length; [|by apply defaults_found|lia].
  pose proof (filter_known_length a_id defaults selected defaults_NoDup).
  pose proof (filter_split_length (λ d, d ∈ a_id <$> selected) defaults).
  change (length defaults) with 5 in *. lia.
Qed.

Lemma team_of_ids_length ids team :
  has_defaults_once AGENT_POOL →
  team_of_ids ids = ok team → length team = 5.
Proof.
  intros Hpool. unfold team_of_ids.
  destruct (filter_exc _ AGENT_POOL) as [e|selected]; cbn [ebind]; [done|].
  intros Heq.
  assert (team = take 5 (if length selected <? 5
                         then foldl (fill_step (a_id <$> selected))
                                selected defaults
                         else selected)) as -> by congruence.
  clear Heq. rewrite length_take.
  destruct (length selected <? 5) eqn:Hlt.
  - apply Nat.ltb_lt in Hlt. rewrite filled_length; [done|done|lia].
  - apply Nat.ltb_ge in Hlt. lia.
Qed.

Lemma team_of_response_length res :
  has_defaults_once AGENT_POOL → length (team_of_response res) = 5.
Proof.
  intros Hpool. unfold team_of_response.
  destruct (parse_ids res) as [e|ids]; cbn [ebind];
    [by apply default_team_length|].
  destruct (team_of_ids ids) as [e|team] eqn:Hteam;
    [by apply default_team_length|].
  by eapply team_of_ids_length.
Qed.

Lemma team_of_list ids :
  ∃ extra,
    team_of_ids (JList ids)
    = ok (take 5 (filter (λ a, named_in ids (a_id a) = true) AGENT_POOL
                    ++ extra))
    ∧ (5 ≤ length (filter (λ a, named_in ids (a_id a) = true) AGENT_POOL)
       → extra = []).
Proof.
  unfold team_of_ids.
  rewrite (filter_exc_ext _ (λ a, ok (named_in ids (a_id a)))) by done.
  rewrite filter_exc_total. cbn [ebind].
  set (matched := filter _ AGENT_POOL).
  destruct (length matched <? 5) eqn:Hlt.
  - apply Nat.ltb_lt in Hlt.
    assert (Hgrow : ∀ ds sel, ∃ extra,
              foldl (fill_step (a_id <$> matched)) sel ds = sel ++ extra).
    { induction ds as [|d ds IH]; intros sel.
      - exists []. by rewrite app_nil_r.
      - cbn [foldl]. unfold fill_step at 2.
        destruct (_ && _); [destruct (list_find _ _) as [[? fb]|]|];
          try apply IH.
        destruct (IH (sel ++ [fb])) as [extra ->].
        exists (fb :: extra). by rewrite <- app_assoc. }
    destruct (Hgrow defaults matched) as [extra ->].
    exists extra. split; [done|lia].
  - exists []. by rewrite app_nil_r.
Qed.

Lemma team_of_ids_ext ids ids' :
  (∀ j, j ∈ ids ↔ j ∈ ids') →
  team_of_ids (JList ids) = team_of_ids (JList ids').
Proof.
  intros Hs. unfold team_of_ids.
  rewrite (filter_exc_ext _ (λ a, py_in (a_id a) (JList ids'))); [done|].
  intros a. cbn [py_in]. f_equal. by apply named_in_ext.
Qed.

End Team.

(** ** Runs of the monadic code *)

Section Runs.

Context `{Env}.

Lemma evolves_refl s : evolves s s [] [] [] [].
Proof. split; by rewrite ?app_nil_r. Qed.

Lemma evolves_trans s1 s2 s3 m1 l1 r1 e1 m2 l2 r2 e2 :
  evolves s1 s2 m1 l1 r1 e1 → evolves s2 s3 m2 l2 r2 e2 →
  evolves s1 s3 (m1 ++ m2) (l1 ++ l2) (r1 ++ r2) (e1 ++ e2).
Proof.
  intros [] []. split; rewrite ?app_assoc; congruence.
Qed.

Lemma yield_spec e s :
  ∃ s', yield e s = (ok tt, s')
        ∧ evolves s s' [] [] [] [e] ∧ last_speaker s' = last_speaker s.
Proof.
  eexists. split; [reflexivity|]. split; [|done].
  split; simpl; by rewrite ?app_nil_r.
Qed.

Lemma generate_sync_spec p t j s :
  ∃ res s' lines,
    generate_sync p t j s = (ok res, s')
    ∧ evolves s s' [] lines [sync_request p t j] []
    ∧ last_speaker s' = last_speaker s
    ∧ Forall not_turn_error lines.
Proof.
  unfold generate_sync, bind, call_service, print, ret.
  fold (sync_request p t j).
  destruct (generate_content (sync_request p t j) (world s)) as [[txt| |msg] w].
  - eexists _, _, []. split; [reflexivity|].
    repeat split; simpl; by rewrite ?app_nil_r.
  - eexists _, _, []. split; [reflexivity|].
    repeat split; simpl; by rewrite ?app_nil_r.
  - eexists _, _, [GeminiSyncError msg]. split; [reflexivity|].
    repeat split; simpl; rewrite ?app_nil_r; try done.
    by repeat constructor.
Qed.

Lemma generate_stream_spec p s :
  ∃ tokens s' lines,
    generate_stream p s = (ok tokens, s')
    ∧ evolves s s' [] lines [stream_request p] []
    ∧ last_speaker s' = last_speaker s
    ∧ Forall not_turn_error lines.
Proof.
  unfold generate_stream, bind, call_service_stream, print, ret.
  fold (stream_request p).
  destruct (generate_content_stream (stream_request p) (world s))
    as [[chunks [msg|]] w]; cbn [fst snd].
  - eexists _, _, [GeminiStreamError msg]. split; [reflexivity|].
    repeat split; simpl; rewrite ?app_nil_r; try done.
    by repeat constructor.
  - eexists _, _, []. split; [reflexivity|].
    repeat split; simpl; by rewrite ?app_nil_r.
Qed.

Lemma save_msg_spec did sender content s :
  ∃ timestamp s',
    _save_msg did sender content s = (ok tt, s')
    ∧ evolves s s'
        [{| m_id := next_rowid (messages (db s)); m_discussion_id := did;
            m_sender := sender; m_content := content;
            m_timestamp := timestamp |}] [] [] []
    ∧ last_speaker s' = last_speaker s.
Proof.
  unfold _save_msg, bind, now, insert_message.
  destruct (now_isoformat (world s)) as [t w].
  eexists t, _. split; [reflexivity|].
  repeat split; simpl; by rewrite ?app_nil_r.
Qed.

Lemma yield_chunks_spec tokens s :
  ∃ s',
    for_each tokens (λ token, yield (StreamChunk token)) s = (ok tt, s')
    ∧ evolves s s' [] [] [] (StreamChunk <$> tokens)
    ∧ last_speaker s' = last_speaker s.
Proof.
  revert s. induction tokens as [|t tokens IH]; intros s.
  - exists s. split; [done|]. split; [apply evolves_refl|done].
  - cbn [for_each]. unfold bind.
    destruct (yield_spec (StreamChunk t) s) as (s1 & -> & Hev1 & Hl1).
    destruct (IH s1) as (s2 & -> & Hev2 & Hl2).
    exists s2. split; [done|]. split; [|congruence].
    apply (evolves_trans _ _ _ _ _ _ _ _ _ _ _ Hev1 Hev2).
Qed.

Lemma pm_brain_spec task phase history candidates last s :
  ∃ r s' lines,
    _pm_brain task phase history candidates last s = (r, s')
    ∧ evolves s s' [] lines
        [coordinator_request task phase history candidates last] []
    ∧ last_speaker s' = last_speaker s
    ∧ Forall not_turn_error lines.
Proof.
  unfold _pm_brain, bind.
  destruct (generate_sync_spec
              (CoordinatorPrompt task phase history
                 (filter (λ c, c ≠ last) candidates)) 5 true s)
    as (res & s1 & lines & -> & Hev & Hl & Hlines).
  destruct (parse_object res) as [e|decision].
  - unfold lift, ret. destruct (py_index candidates 0) as [e'|first];
      by eexists _, _, lines.
  - by eexists _, _, lines.
Qed.

(** *** One turn *)

Ltac chain Ha Hb :=
  let Hev := fresh "Hev" in
  pose proof (evolves_trans _ _ _ _ _ _ _ _ _ _ _ Ha Hb) as Hev;
  cbn [app] in Hev; rewrite ?app_nil_r in Hev;
  clear Ha Hb.

Lemma turn_decide_spec did task roles_map turn s :
  ∃ r s' lines,
    turn_decide did task roles_map turn s = (r, s')
    ∧ evolves s s' [] lines
        [coordinator_request task (phase_of turn) (history_at did s)
           roles_map.*1 (last_speaker s)]
        [phase_status turn]
    ∧ last_speaker s' = last_speaker s
    ∧ Forall not_turn_error lines
    ∧ ∀ hd, r = ok hd → hd.1 = history_at did s.
Proof.
  unfold turn_decide, bind, select_messages_ordered, read_last_speaker.
  fold (history_at did s). fold (phase_status turn).
  destruct (yield_spec (phase_status turn) s) as (s1 & -> & Hev1 & Hl1).
  destruct (pm_brain_spec task (phase_of turn) (history_at did s)
              roles_map.*1 (last_speaker s1) s1)
    as (r & s2 & lines & -> & Hev2 & Hl2 & Hlines).
  rewrite Hl1 in Hev2. chain Hev1 Hev2.
  destruct r as [e|d]; eexists _, s2, lines;
    (split; [reflexivity|]); (split; [done|]);
    (split; [congruence|]); (split; [done|]).
  - done.
  - by intros hd [= <-].
Qed.

Lemma turn_speak_failed did task roles_map turn history d e s :
  turn_choice d roles_map turn = inl e →
  turn_speak did task roles_map turn history d s = (inl e, s).
Proof.
  unfold turn_choice, turn_speak, bind, lift. intros Hc.
  destruct (subscript d (lit "next_speaker")) as [?|ns];
    cbn [ebind] in Hc; [congruence|].
  destruct (subscript d (lit "instruction")) as [?|ins];
    cbn [ebind] in Hc; [congruence|].
  destruct (choose_speaker ns roles_map roles_map.*1 turn) as [?|sp];
    cbn [ebind] in Hc; congruence.
Qed.

Lemma turn_speak_done did task roles_map turn history d speaker ins s :
  turn_choice d roles_map turn = ok (speaker, ins) →
  ∃ s' lines tokens i1 t1 i2 t2,
    turn_speak did task roles_map turn history d s = (ok tt, s')
    ∧ evolves s s'
        [Build_message_row i1 did (lit "PM") (pm_content turn speaker ins) t1;
         Build_message_row i2 did speaker (concat tokens) t2]
        lines
        [agent_request task roles_map turn history speaker ins]
        (speaking_events turn speaker ins tokens)
    ∧ last_speaker s' = speaker
    ∧ Forall not_turn_error lines.
Proof.
  unfold turn_choice, turn_speak, bind, lift. intros Hc.
  destruct (subscript d (lit "next_speaker")) as [?|ns];
    cbn [ebind] in Hc; [congruence|].
  destruct (subscript d (lit "instruction")) as [?|ins'];
    cbn [ebind] in Hc; [congruence|].
  destruct (choose_speaker ns roles_map roles_map.*1 turn) as [?|sp];
    cbn [ebind] in Hc; [congruence|].
  assert (sp = speaker ∧ ins' = ins) as [-> ->] by (split; congruence).
  clear Hc. fold (pm_content turn speaker ins).
  fold (agent_request task roles_map turn history speaker ins).
  unfold assign_last_speaker.
  set (s0 := set_last_speaker speaker s).
  assert (Hev0 : evolves s s0 [] [] [] []) by (split; by rewrite ?app_nil_r).
  destruct (save_msg_spec did (lit "PM") (pm_content turn speaker ins) s0)
    as (t1 & s1 & -> & Hev1 & Hl1).
  destruct (yield_spec (Message (lit "PM") (pm_content turn speaker ins)) s1)
    as (s2 & -> & Hev2 & Hl2).
  destruct (yield_spec (Status (speaker ++ lit " is thinking...")) s2)
    as (s3 & -> & Hev3 & Hl3).
  destruct (yield_spec (StreamStart speaker) s3) as (s4 & -> & Hev4 & Hl4).
  unfold agent_request, stream_request.
  destruct (generate_stream_spec
              (_construct_agent_prompt speaker
                 (default Placeholder (dict_get roles_map speaker))
                 (py_format ins) history task (phase_of turn)) s4)
    as (tokens & s5 & lines & -> & Hev5 & Hl5 & Hlines).
  destruct (yield_chunks_spec tokens s5) as (s6 & -> & Hev6 & Hl6).
  destruct (yield_spec StreamEnd s6) as (s7 & -> & Hev7 & Hl7).
  destruct (save_msg_spec did speaker (concat tokens) s7)
    as (t2 & s8 & -> & Hev8 & Hl8).
  chain Hev0 Hev1. chain Hev Hev2. chain Hev0 Hev3. chain Hev Hev4.
  chain Hev0 Hev5. chain Hev Hev6. chain Hev0 Hev7. chain Hev Hev8.
  eexists s8, lines, tokens, _, t1, _, t2.
  split; [reflexivity|]. split; [exact Hev0|]. split; [|done].
  rewrite Hl8, Hl7, Hl6, Hl5, Hl4, Hl3, Hl2, Hl1. done.
Qed.

Lemma print_spec l s :
  ∃ s', print l s = (ok tt, s')
        ∧ evolves s s' [] [l] [] [] ∧ last_speaker s' = last_speaker s.
Proof.
  eexists. split; [reflexivity|]. split; [|done].
  split; simpl; by rewrite ?app_nil_r.
Qed.

Lemma attempt_spec did task roles_map turn s :
  ∃ s', attempt did task roles_map turn s = (ok tt, s')
        ∧ turn_outcome did task roles_map turn s s'.
Proof.
  unfold attempt, try_except, turn_body, bind.
  destruct (turn_decide_spec did task roles_map turn s)
    as (r & s1 & lines & Heq & Hev1 & Hl1 & Hlines & Hh).
  rewrite Heq. destruct r as [e|[h d]].
  - destruct (print_spec (TurnError e) s1) as (s2 & -> & Hev2 & Hl2).
    exists s2. split; [done|]. chain Hev1 Hev2.
    apply (turn_failed _ _ _ _ _ _ e lines); [|done|congruence|done].
    left. by rewrite Heq.
  - pose proof (Hh (h, d) eq_refl) as Hhist. cbn [fst snd] in *. subst h.
    destruct (turn_choice d roles_map turn) as [e|[speaker ins]] eqn:Hc.
    + rewrite (turn_speak_failed _ _ _ _ _ _ _ _ Hc).
      destruct (print_spec (TurnError e) s1) as (s2 & -> & Hev2 & Hl2).
      exists s2. split; [done|]. chain Hev1 Hev2.
      apply (turn_failed _ _ _ _ _ _ e lines); [|done|congruence|done].
      right. exists d. rewrite Heq. by split.
    + destruct (turn_speak_done did task roles_map turn (history_at did s)
                  d speaker ins s1 Hc)
        as (s2 & lines2 & tokens & i1 & t1 & i2 & t2 & -> & Hev2 & Hl2 & Hlines2).
      exists s2. split; [done|]. chain Hev1 Hev2.
      eapply (turn_done _ _ _ _ _ _ d speaker ins (lines ++ lines2) tokens);
        [by rewrite Heq|done|exact Hev|done|].
      by apply Forall_app.
Qed.

(** *** The loop and the whole run *)

Lemma loop_spec did task roles_map turns s :
  ∃ s', for_each turns (attempt did task roles_map) s = (ok tt, s')
        ∧ turns_run did task roles_map turns s s'.
Proof.
  revert s. induction turns as [|turn turns IH]; intros s.
  - exists s. split; [done|constructor].
  - cbn [for_each]. unfold bind.
    destruct (attempt_spec did task roles_map turn s) as (s1 & -> & Ho).
    destruct (IH s1) as (s2 & -> & Hr).
    exists s2. split; [done|]. by econstructor.
Qed.

Lemma speaking_events_not_finished turn speaker ins tokens :
  Forall not_finished (speaking_events turn speaker ins tokens).
Proof.
  unfold speaking_events. repeat (constructor; [done|]).
  apply Forall_app. split; [|by repeat constructor].
  apply Forall_fmap, Forall_true. done.
Qed.

Lemma turns_run_summary did task roles_map turns s s' :
  turns_run did task roles_map turns s s' →
  ∃ msgs lines rqs segs,
    evolves s s' msgs lines rqs (concat segs)
    ∧ Forall (λ m, m_discussion_id m = did) msgs
    ∧ Forall2 started turns segs
    ∧ (Forall not_turn_error lines →
       Forall2 completed turns segs ∧ length msgs = 2 * length turns).
Proof.
  induction 1 as [s|turn turns s s1 s2 Ho Hr IH].
  - exists [], [], [], []. split; [apply evolves_refl|].
    split; [done|]. split; [constructor|]. intros _. split; [constructor|done].
  - destruct IH as (msgs & lines & rqs & segs & Hev2 & Hdid & Hst & Hall).
    destruct Ho as [d speaker ins lines1 tokens i1 t1 i2 t2 Hd Hc Hev1 Hl1 Hn1
                   |e lines1 Hcause Hev1 Hl1 Hn1].
    + chain Hev1 Hev2.
      eexists _, _, _,
        ((phase_status turn :: speaking_events turn speaker ins tokens)
           :: segs).
      split; [exact Hev|].
      split; [by repeat constructor|].
      split.
      { constructor; [|done]. eexists. split; [done|].
        apply speaking_events_not_finished. }
      intros [_ Hn]%Forall_app. destruct (Hall Hn) as [Hc2 Hlen].
      split; [constructor; [by eexists _, _, _|done]|].
      cbn [length]. lia.
    + chain Hev1 Hev2.
      eexists _, _, _, ([phase_status turn] :: segs). split; [exact Hev|].
      split; [done|]. split.
      { constructor; [|done]. eexists. split; [done|constructor]. }
      intros [[_ Hbad]%Forall_app _]%Forall_app.
      by apply Forall_inv in Hbad.
Qed.

Lemma generate_report_spec did task goal s :
  ∃ report s' lines,
    _generate_report did task goal s = (ok report, s')
    ∧ evolves s s' [] lines [report_request did task goal s] []
    ∧ Forall not_turn_error lines.
Proof.
  unfold _generate_report, bind, select_messages.
  fold (report_request did task goal s). unfold report_request.
  destruct (generate_sync_spec
              (ReportPrompt task goal
                 (join nl ((λ m, m_sender m ++ lit ": " ++ m_content m)
                             <$> filter (λ m, m_discussion_id m = did)
                                   (messages (db s))))) 3 false s)
    as (report & s1 & lines & -> & Hev & _ & Hlines).
  by exists report, s1, lines.
Qed.

Lemma run_stream_found did disc s :
  find_discussion did (db s) = Some disc →
  ∃ s' msgs lines lines' rqs segs report,
    run_stream did s = (ok tt, s')
    ∧ evolves s s' msgs (lines ++ lines') rqs
        (concat segs ++ [closing_status; Finished report])
    ∧ Forall (λ m, m_discussion_id m = did) msgs
    ∧ Forall2 started (seq 1 total_turns) segs
    ∧ Forall not_turn_error lines'
    ∧ (∃ before,
         (_generate_report did (d_task disc) (d_goal disc) before).1
         = ok report)
    ∧ (Forall not_turn_error lines →
       Forall2 completed (seq 1 total_turns) segs
       ∧ length msgs = 2 * total_turns).
Proof.
  intros Hdisc. unfold run_stream, bind, select_discussion, select_roles.
  rewrite Hdisc. unfold assign_last_speaker. cbv beta iota.
  set (roles_map := build_roles_map _).
  set (s0 := set_last_speaker (lit "PM") s).
  assert (Hev0 : evolves s s0 [] [] [] []) by (split; by rewrite ?app_nil_r).
  destruct (loop_spec did (d_task disc) roles_map (seq 1 total_turns) s0)
    as (s1 & -> & Hrun).
  destruct (turns_run_summary _ _ _ _ _ _ Hrun)
    as (msgs & lines & rqs & segs & Hev1 & Hdid & Hst & Hall).
  fold closing_status.
  destruct (yield_spec closing_status s1) as (s2 & -> & Hev2 & _).
  destruct (generate_report_spec did (d_task disc) (d_goal disc) s2)
    as (report & s3 & lines' & Hreport & Hev3 & Hlines').
  rewrite Hreport.
  destruct (yield_spec (Finished report) s3) as (s4 & -> & Hev4 & _).
  chain Hev0 Hev1. chain Hev Hev2. chain Hev0 Hev3. chain Hev Hev4.
  rewrite <- !app_assoc in Hev0. cbn [app] in Hev0.
  exists s4, msgs, lines, lines', (rqs ++ [report_request did (d_task disc) (d_goal disc) s2]), segs, report.
  split; [done|]. split; [done|]. split; [done|]. split; [done|].
  split; [done|]. split; [exists s2; by rewrite Hreport|].
  intros Hn. destruct (Hall Hn) as [? Hlen].
  split; [done|]. by rewrite length_seq in Hlen.
Qed.

Lemma run_stream_missing did s :
  find_discussion did (db s) = None → run_stream did s = (ok tt, s).
Proof.
  intros Hdisc. unfold run_stream, bind, select_discussion, select_roles.
  by rewrite Hdisc.
Qed.

End Runs.

(** ** Counting and reading events *)

Lemma count_events_app t evs1 evs2 :
  count_events t (evs1 ++ evs2) = count_events t evs1 + count_events t evs2.
Proof. induction evs1 as [|e evs1 IH]; simpl; [done|]. rewrite IH. lia. Qed.

Lemma count_events_chunks t tokens :
  t ≠ "stream_chunk"%string → count_events t (StreamChunk <$> tokens) = 0.
Proof.
  intros Ht. induction tokens as [|x tokens IH]; [done|].
  rewrite fmap_cons. cbn [count_events event_type]. rewrite IH.
  destruct (String.eqb_spec "stream_chunk" t); [congruence|done].
Qed.

Lemma count_events_not_finished evs :
  Forall not_finished evs → count_events "finished" evs = 0.
Proof.
  induction 1 as [|e evs He _ IH]; [done|].
  cbn [count_events]. rewrite IH. by destruct e.
Qed.

Lemma turn_errors_app c1 c2 :
  turn_errors (c1 ++ c2) = turn_errors c1 ++ turn_errors c2.
Proof. apply bind_app. Qed.

Lemma turn_errors_nil c : turn_errors c = [] → Forall not_turn_error c.
Proof.
  induction c as [|l c IH]; [constructor|].
  unfold turn_errors. rewrite bind_cons. fold (turn_errors c).
  destruct l; cbn [app]; intros Hc; [constructor; [done|auto]..|discriminate].
Qed.

Lemma turn_errors_none c : Forall not_turn_error c → turn_errors c = [].
Proof.
  induction 1 as [|l c Hl _ IH]; [done|].
  unfold turn_errors. rewrite bind_cons. fold (turn_errors c).
  rewrite IH. by destruct l.
Qed.

Lemma speakers_app evs1 evs2 :
  speakers (evs1 ++ evs2) = speakers evs1 ++ speakers evs2.
Proof. apply bind_app. Qed.

Lemma speakers_chunks tokens : speakers (StreamChunk <$> tokens) = [].
Proof.
  induction tokens as [|t tokens IH]; [done|].
  rewrite fmap_cons. unfold speakers. rewrite bind_cons. exact IH.
Qed.

Section Creation.

Context `{Env}.

Lemma insert_roles_spec did team s :
  ∃ s',
    for_each team (λ a, insert_role (role_row_of did a)) s = (ok tt, s')
    ∧ discussions (db s') = discussions (db s)
    ∧ messages (db s') = messages (db s)
    ∧ roles (db s') = roles (db s) ++ (role_row_of did <$> team)
    ∧ world s' = world s.
Proof.
  revert s. induction team as [|a team IH]; intros s.
  - exists s. by rewrite app_nil_r.
  - cbn [for_each]. unfold bind, insert_role at 1.
    destruct (IH (set_db {| discussions := discussions (db s);
                            messages := messages (db s);
                            roles := roles (db s) ++ [role_row_of did a] |} s))
      as (s' & -> & Hd & Hm & Hr & Hw).
    exists s'. split; [done|]. simpl in *.
    rewrite Hr, <- app_assoc. done.
Qed.

(** What [create_discussion] does when the new id is not yet a key of
    [discussions]. *)
Lemma create_discussion_spec task s :
  (uuid4 (world s)).1 ∉ d_id <$> discussions (db s) →
  ∃ res goal created opening s',
    create_discussion task s
    = (ok ((uuid4 (world s)).1,
           foldl (λ d a, dict_set (a_role a) (a_description a) d) []
             (team_of_response res),
           goal, opening_message goal (team_of_response res)), s')
    ∧ discussions (db s')
      = discussions (db s)
          ++ [{| d_id := (uuid4 (world s)).1; d_task := task; d_goal := goal;
                 d_status := lit "active"; d_created_at := created |}]
    ∧ roles (db s')
      = roles (db s)
          ++ (role_row_of (uuid4 (world s)).1 <$> team_of_response res)
    ∧ messages (db s') = messages (db s) ++ [opening]
    ∧ m_discussion_id opening = (uuid4 (world s)).1
    ∧ m_sender opening = lit "PM"
    ∧ m_content opening = opening_message goal (team_of_response res).
Proof.
  intros Hfresh.
  unfold create_discussion, bind, new_uuid, _select_best_team,
    _define_strategic_goal, bind, ret.
  destruct (uuid4 (world s)) as [did w]. cbn [fst] in *.
  set (s0 := set_world w s).
  destruct (generate_sync_spec
              (TeamPrompt task
                 ((λ a, (a_id a, a_role a, take 50 (a_description a)))
                    <$> AGENT_POOL)) 1 true s0)
    as (res & s1 & lines1 & -> & Hev1 & _ & _).
  destruct (generate_sync_spec (GoalPrompt task) 7 false s1)
    as (goal & s2 & lines2 & -> & Hev2 & _ & _).
  unfold now at 1. destruct (now_isoformat (world s2)) as [created w3].
  unfold insert_discussion.
  assert (Hd2 : discussions (db (set_world w3 s2)) = discussions (db s)).
  { simpl. by rewrite (ev_discussions _ _ _ _ _ _ Hev2),
      (ev_discussions _ _ _ _ _ _ Hev1). }
  rewrite Hd2, bool_decide_eq_false_2 by done.
  fold (role_row_of did).
  change (λ a, insert_role
                 {| r_discussion_id := did; r_role_name := a_role a;
                    r_description := a_description a; r_agent_id := a_id a |})
    with (λ a, insert_role (role_row_of did a)).
  match goal with
  | |- context [for_each _ _ ?s3] =>
      destruct (insert_roles_spec did (team_of_response res) s3)
        as (s4 & -> & Hd4 & Hm4 & Hr4 & _)
  end.
  destruct (save_msg_spec did (lit "PM")
              (opening_message goal (team_of_response res)) s4)
    as (t & s5 & -> & Hev5 & _).
  eexists res, goal, created, _, s5. split; [reflexivity|].
  rewrite (ev_discussions _ _ _ _ _ _ Hev5), (ev_roles _ _ _ _ _ _ Hev5),
    (ev_messages _ _ _ _ _ _ Hev5), Hd4, Hr4, Hm4. simpl.
  rewrite (ev_roles _ _ _ _ _ _ Hev2), (ev_roles _ _ _ _ _ _ Hev1),
    (ev_messages _ _ _ _ _ _ Hev2), (ev_messages _ _ _ _ _ _ Hev1).
  simpl. rewrite !app_nil_r. done.
Qed.

End Creation.

(** ** The claims *)

Lemma completed_counts `{Env} turn seg :
  completed turn seg →
  count_events "message" seg = 1 ∧ count_events "stream_start" seg = 1
  ∧ count_events "stream_end" seg = 1 ∧ count_events "finished" seg = 0.
Proof.
  intros (speaker & ins & tokens & ->).
  unfold phase_status, speaking_events.
  cbn [count_events app event_type]. rewrite !count_events_app.
  rewrite !count_events_chunks by done. done.
Qed.

Lemma speakers_completed `{Env} turn speaker ins tokens :
  speakers (phase_status turn :: speaking_events turn speaker ins tokens)
  = [speaker].
Proof.
  unfold phase_status, speaking_events.
  change (speakers ([Status (lit "Phase: " ++ phase_of turn
                               ++ lit " - PM Coordinating...");
                     Message (lit "PM") (pm_content turn speaker ins);
                     Status (speaker ++ lit " is thinking...");
                     StreamStart speaker]
                      ++ (StreamChunk <$> tokens) ++ [StreamEnd])
          = [speaker]).
  by rewrite !speakers_app, speakers_chunks.
Qed.

Lemma completed_turns_counts `{Env} turns segs :
  Forall2 completed turns segs →
  count_events "message" (concat segs) = length turns
  ∧ count_events "stream_start" (concat segs) = length turns
  ∧ count_events "stream_end" (concat segs) = length turns
  ∧ count_events "finished" (concat segs) = 0.
Proof.
  induction 1 as [|turn seg turns segs Hc _ IH]; [done|].
  destruct IH as (? & ? & ? & ?).
  destruct (completed_counts turn seg Hc) as (? & ? & ? & ?).
  cbn [concat length]. rewrite !count_events_app. lia.
Qed.

Lemma started_not_finished `{Env} turns segs :
  Forall2 started turns segs → Forall not_finished (concat segs).
Proof.
  induction 1 as [|turn seg turns segs (rest & -> & Hrest) _ IH];
    [constructor|].
  cbn [concat]. apply Forall_app. split; [|done]. by constructor.
Qed.

Section Claims.

Context `{Env}.

(** C1: whatever the generative service answers to the team selection, if
    the catalog has each of the five default ids exactly once then
    [create_discussion], run with a new discussion id, adds exactly five
    rows to [roles], all of them for the new discussion, and these are the
    only rows of that discussion. *)
Theorem C1_create_discussion_persists_five_roles task s :
  has_defaults_once AGENT_POOL →
  (uuid4 (world s)).1 ∉ d_id <$> discussions (db s) →
  (uuid4 (world s)).1 ∉ r_discussion_id <$> roles (db s) →
  ∃ value s' rows,
    create_discussion task s = (ok value, s')
    ∧ value.1.1.1 = (uuid4 (world s)).1
    ∧ roles (db s') = roles (db s) ++ rows
    ∧ length rows = 5
    ∧ Forall (λ r, r_discussion_id r = (uuid4 (world s)).1) rows
    ∧ length (filter (λ r, r_discussion_id r = (uuid4 (world s)).1)
                (roles (db s'))) = 5.
Proof.
  intros Hpool Hfresh Hnone.
  destruct (create_discussion_spec task s Hfresh)
    as (res & goal & created & opening & s' & Heq & _ & Hroles & _).
  set (did := (uuid4 (world s)).1) in *.
  assert (Hlen : length (role_row_of did <$> team_of_response res) = 5)
    by (by rewrite length_fmap, team_of_response_length).
  assert (Hall : Forall (λ r, r_discussion_id r = did)
                   (role_row_of did <$> team_of_response res))
    by (apply Forall_fmap, Forall_true; done).
  eexists _, s', _. split; [exact Heq|]. split; [done|].
  split; [exact Hroles|]. split; [done|]. split; [done|].
  rewrite Hroles, filter_app, length_app.
  replace (filter (λ r, r_discussion_id r = did) (roles (db s))) with
    (@nil role_row).
  - by rewrite (filter_all _ _ Hall).
  - symmetry. apply filter_none, Forall_forall. intros r Hr Hid.
    apply Hnone. rewrite <- Hid. by apply list_elem_of_fmap_2.
Qed.

(** C2: for a discussion that exists, with any number of assigned roles
    and whatever the service does, [run_stream] returns normally after the
    ten turns: each turn was started, no exception left the loop, and the
    events end with the one [finished] event, which carries the report. *)
Theorem C2_run_stream_ends_with_finished did disc s :
  find_discussion did (db s) = Some disc →
  ∃ segs report,
    (run_stream did (start_generator s)).1 = ok tt
    ∧ events_of_run did s
      = (concat segs ++ [closing_status]) ++ [Finished report]
    ∧ (∃ before,
         (_generate_report did (d_task disc) (d_goal disc) before).1
         = ok report)
    ∧ Forall2 started (seq 1 10) segs
    ∧ Forall not_finished (concat segs ++ [closing_status])
    ∧ count_events "finished" (events_of_run did s) = 1.
Proof.
  intros Hdisc. unfold events_of_run.
  destruct (run_stream_found did disc (start_generator s) Hdisc)
    as (s' & msgs & lines & lines' & rqs & segs & report & -> & Hev
        & _ & Hst & _ & Hreport & _).
  exists segs, report. cbn [fst snd].
  rewrite (ev_out _ _ _ _ _ _ Hev). cbn [start_generator set_out out app].
  assert (Hnf : Forall not_finished (concat segs ++ [closing_status])).
  { apply Forall_app. split; [by eapply started_not_finished|].
    by repeat constructor. }
  split; [done|]. split; [by rewrite <- app_assoc|].
  split; [done|]. split; [done|]. split; [done|].
  replace (concat segs ++ [closing_status; Finished report])
    with ((concat segs ++ [closing_status]) ++ [Finished report])
    by (by rewrite <- app_assoc).
  rewrite count_events_app, count_events_not_finished by done. done.
Qed.



(** C5: when the discussion exists and no turn reports an exception, the
    events are those of the ten turns followed by the closing status and
    the one [finished] event; each turn is its phase status, the
    coordinator message, a status, [stream_start], the [stream_chunk]
    events and [stream_end], in this order. So there are ten [message]
    events, ten [stream_start] and ten [stream_end] events and one
    [finished] event, the last one. *)
Theorem C5_events_of_a_run_without_failure did disc s :
  find_discussion did (db s) = Some disc →
  turn_errors (console (run_stream did (start_generator s)).2)
  = turn_errors (console s) →
  ∃ segs report,
    events_of_run did s = concat segs ++ [closing_status; Finished report]
    ∧ Forall2 completed (seq 1 10) segs
    ∧ count_events "message" (events_of_run did s) = 10
    ∧ count_events "stream_start" (events_of_run did s) = 10
    ∧ count_events "stream_end" (events_of_run did s) = 10
    ∧ count_events "finished" (events_of_run did s) = 1.
Proof.
  intros Hdisc. unfold events_of_run.
  destruct (run_stream_found did disc (start_generator s) Hdisc)
    as (s' & msgs & lines & lines' & rqs & segs & report & -> & Hev
        & _ & _ & _ & _ & Hall).
  cbn [snd]. rewrite (ev_console _ _ _ _ _ _ Hev), (ev_out _ _ _ _ _ _ Hev).
  cbn [start_generator set_out console out app].
  rewrite !turn_errors_app. intros Hnone.
  assert (Hlines : Forall not_turn_error lines).
  { apply turn_errors_nil.
    rewrite <- (app_nil_r (turn_errors (console s))) in Hnone at 2.
    apply app_inv_head in Hnone. by apply app_eq_nil in Hnone as [? _]. }
  destruct (Hall Hlines) as [Hcompleted _].
  destruct (completed_turns_counts _ _ Hcompleted) as (Hm & Hs & He & Hf).
  rewrite length_seq in Hm, Hs, He.
  exists segs, report. split; [done|]. split; [done|].
  rewrite !count_events_app, Hm, Hs, He, Hf. done.
Qed.

(** C6: the phase is a function of the turn number alone: DIVERGE for
    turns 1, 2 and 3, DEEPEN for turns 4 to 7, CONVERGE for turns 8, 9 and
    10; on every machine and for every discussion the turn opens with the
    status event that carries this phase. *)
Theorem C6_phase_of_turn :
  (phase_of 1 = lit "DIVERGE (Ideation)"
   ∧ phase_of 2 = lit "DIVERGE (Ideation)"
   ∧ phase_of 3 = lit "DIVERGE (Ideation)")
  ∧ (phase_of 4 = lit "DEEPEN (Critique & Feasibility)"
     ∧ phase_of 5 = lit "DEEPEN (Critique & Feasibility)"
     ∧ phase_of 6 = lit "DEEPEN (Critique & Feasibility)"
     ∧ phase_of 7 = lit "DEEPEN (Critique & Feasibility)")
  ∧ (phase_of 8 = lit "CONVERGE (Planning)"
     ∧ phase_of 9 = lit "CONVERGE (Planning)"
     ∧ phase_of 10 = lit "CONVERGE (Planning)")
  ∧ ∀ did task roles_map turn s,
      ∃ r s',
        turn_decide did task roles_map turn s = (r, s')
        ∧ out s'
          = out s ++ [Status (lit "Phase: " ++ phase_of turn
                                ++ lit " - PM Coordinating...")].
Proof.
  split; [done|]. split; [done|]. split; [done|].
  intros did task roles_map turn s.
  destruct (turn_decide_spec did task roles_map turn s)
    as (r & s' & lines & Heq & Hev & _).
  exists r, s'. split; [done|]. exact (ev_out _ _ _ _ _ _ Hev).
Qed.

(** C7: for an id without a row in [discussions], [run_stream] returns
    at once and normally: it yields no event and leaves the machine, its
    messages included, as it was. *)
Theorem C7_unknown_discussion did s :
  find_discussion did (db s) = None →
  run_stream did s = (ok tt, s) ∧ events_of_run did s = [].
Proof.
  intros Hdisc. split; [by apply run_stream_missing|].
  unfold events_of_run. by rewrite run_stream_missing.
Qed.

(** C8: the requests a turn sends to the service, for the coordinator
    decision and for the speaker, carry one and the same history text: the
    messages of the discussion in ascending id order, the last ten of them,
    each as its bracketed sender, a colon, the first 200 characters of its
    content and three dots, joined by newlines. Nothing else of the
    messages enters it: it is the history text of the truncated last
    ten. *)
Theorem C8_history_window did task roles_map turn s :
  let msgs :=
    order_by_id (filter (λ m, m_discussion_id m = did) (messages (db s))) in
  (∃ s' new,
     attempt did task roles_map turn s = (ok tt, s')
     ∧ requests s' = requests s ++ new
     ∧ new ≠ []
     ∧ Forall (λ rq, prompt_history (rq_prompt rq)
                     = Some (history_text_of msgs)) new)
  ∧ StronglySorted by_id msgs
  ∧ msgs ≡ₚ filter (λ m, m_discussion_id m = did) (messages (db s))
  ∧ history_text_of msgs
    = join nl ((λ m, lit "[" ++ m_sender m ++ lit "]: "
                       ++ take 200 (m_content m) ++ lit "...")
                 <$> drop (length msgs - 10) msgs)
  ∧ length (drop (length msgs - 10) msgs) = length msgs `min` 10
  ∧ history_text_of msgs = history_text_of (truncated <$> last10 msgs).
Proof.
  intros msgs. split; [|split; [|split; [|split; [|split]]]].
  - destruct (attempt_spec did task roles_map turn s) as (s' & Heq & Ho).
    exists s'.
    destruct Ho as [d speaker ins lines tokens i1 t1 i2 t2 _ _ Hev _ _
                   |e lines _ Hev _ _];
      eexists; (split; [done|]);
      (split; [exact (ev_requests _ _ _ _ _ _ Hev)|]);
      (split; [done|]); by repeat constructor.
  - apply order_by_id_sorted.
  - apply order_by_id_perm.
  - done.
  - apply (last10_length msgs).
  - symmetry. apply history_window.
Qed.

(** C9: [run_stream] changes no row that exists: the tables
    [discussions] and [roles] are after the run what they were before, so
    the row of the discussion is found unchanged, and [messages] is the old
    table followed by new rows, all of this discussion. *)
Theorem C9_run_stream_only_appends_messages did s :
  let s' := (run_stream did s).2 in
  discussions (db s') = discussions (db s)
  ∧ roles (db s') = roles (db s)
  ∧ find_discussion did (db s') = find_discussion did (db s)
  ∧ ∃ new,
      messages (db s') = messages (db s) ++ new
      ∧ Forall (λ m, m_discussion_id m = did) new.
Proof.
  destruct (find_discussion did (db s)) as [disc|] eqn:Hdisc.
  - destruct (run_stream_found did disc s Hdisc)
      as (s' & msgs & lines & lines' & rqs & segs & report & -> & Hev
          & Hdid & _).
    cbn [snd]. split; [exact (ev_discussions _ _ _ _ _ _ Hev)|].
    split; [exact (ev_roles _ _ _ _ _ _ Hev)|].
    split.
    { unfold find_discussion in *.
      by rewrite (ev_discussions _ _ _ _ _ _ Hev). }
    exists msgs. split; [exact (ev_messages _ _ _ _ _ _ Hev)|done].
  - rewrite (run_stream_missing did s Hdisc). cbn [snd].
    split; [done|]. split; [done|]. split; [done|].
    exists []. by rewrite app_nil_r.
Qed.

(** C10: when the response parses to a list, the team is the first five
    of the catalog entries whose id is in the list, in catalog order,
    followed by the defaults that fill it up; two responses whose lists
    have the same elements, in any order and with any repetition, give the
    same team in the same order. *)
Theorem C10_team_depends_on_the_set_of_ids res res' ids ids' :
  parse_ids res = ok (JList ids) →
  parse_ids res' = ok (JList ids') →
  (∀ j, j ∈ ids ↔ j ∈ ids') →
  team_of_response res = team_of_response res'
  ∧ ∃ matched extra,
      team_of_response res = take 5 (matched ++ extra)
      ∧ matched `sublist_of` AGENT_POOL
      ∧ (∀ a, a ∈ matched ↔ a ∈ AGENT_POOL ∧ JStr (a_id a) ∈ ids)
      ∧ (5 ≤ length matched → extra = []).
Proof.
  intros Hres Hres' Hsame. unfold team_of_response.
  rewrite Hres, Hres'. cbn [ebind].
  rewrite <- (team_of_ids_ext ids ids' Hsame).
  split; [done|].
  destruct (team_of_list ids) as (extra & -> & Hextra).
  eexists _, extra. split; [done|]. split; [apply sublist_filter|].
  split; [|done]. intros a.
  by rewrite list_elem_of_filter, named_in_spec, (comm (∧)).
Qed.

End Claims.

(** * Further properties of the code *)

(** ** The wire format *)

Lemma hex_digit_printable n : (n < 16)%N → printable (hex_digit n).
Proof.
  unfold hex_digit, printable. intros Hn.
  destruct (n <? 10)%N eqn:Hlt; [apply N.ltb_lt in Hlt|apply N.ltb_ge in Hlt];
    lia.
Qed.

Lemma u_escape_printable n : Forall printable (u_escape n).
Proof.
  unfold u_escape.
  repeat (constructor;
          [first [by unfold printable
                 |apply hex_digit_printable, N.mod_lt; done]|]).
  constructor.
Qed.

Lemma json_escape_char_printable c : Forall printable (json_escape_char c).
Proof.
  unfold json_escape_char.
  repeat (match goal with
          | |- context [if ?b then _ else _] => destruct b eqn:?
          end; [by repeat constructor|]).
  destruct ((32 <=? c) && (c <=? 126))%N eqn:Hp.
  - apply andb_true_iff in Hp as [?%N.leb_le ?%N.leb_le].
    by repeat constructor.
  - destruct (c <? 65536)%N; [apply u_escape_printable|].
    apply Forall_app. split; apply u_escape_printable.
Qed.

Lemma json_dumps_str_printable s : Forall printable (json_dumps_str s).
Proof.
  unfold json_dumps_str. apply Forall_app. split; [by repeat constructor|].
  apply Forall_app. split; [|by repeat constructor].
  induction s as [|c s IH]; [constructor|].
  rewrite bind_cons. apply Forall_app. split; [|done].
  apply json_escape_char_printable.
Qed.

Lemma join_Forall (P : N → Prop) sep parts :
  Forall P sep → Forall (Forall P) parts → Forall P (join sep parts).
Proof.
  intros Hsep. induction 1 as [|p parts Hp Hparts IH]; [constructor|].
  destruct parts as [|q parts]; [done|].
  change (Forall P (p ++ sep ++ join sep (q :: parts))).
  rewrite !Forall_app. done.
Qed.

Lemma lit_printable_dec (s : str) :
  forallb (λ c, (32 <=? c) && (c <=? 126))%N s = true → Forall printable s.
Proof.
  intros Hs. apply Forall_forall. intros c Hc.
  rewrite forallb_forall in Hs. apply list_elem_of_In, Hs in Hc.
  apply andb_true_iff in Hc as [?%N.leb_le ?%N.leb_le]. done.
Qed.

Lemma json_dumps_obj_printable items : Forall printable (json_dumps_obj items).
Proof.
  unfold json_dumps_obj. apply Forall_app. split; [by apply lit_printable_dec|].
  apply Forall_app. split; [|by apply lit_printable_dec].
  apply join_Forall; [by apply lit_printable_dec|].
  apply Forall_fmap, Forall_true. intros [k v]. unfold compose. cbn [fst snd].
  rewrite !Forall_app. split; [apply json_dumps_str_printable|].
  split; [by apply lit_printable_dec|apply json_dumps_str_printable].
Qed.


Lemma escape_newlines_printable s :
  Forall printable s → escape_newlines s = s.
Proof.
  unfold escape_newlines. induction 1 as [|c s Hc _ IH]; [done|].
  rewrite bind_cons, IH.
  destruct (c =? 10)%N eqn:Hc10; [|done].
  apply N.eqb_eq in Hc10. unfold printable in Hc. lia.
Qed.


(** X2: the events whose data is made by [json.dumps] go out as characters from
    space to tilde and line feeds, whatever their texts hold; the escaping of
    line feeds leaves their data as it is. *)
Theorem X2_sse_json_events_are_ascii sender content token :
  Forall (λ c, c = 10%N ∨ printable c) (sse (Message sender content))
  ∧ Forall (λ c, c = 10%N ∨ printable c) (sse (StreamStart sender))
  ∧ Forall (λ c, c = 10%N ∨ printable c) (sse (StreamChunk token)).
Proof.
  assert (Hframe : ∀ type items,
            forallb (λ c, (32 <=? c) && (c <=? 126))%N (lit type) = true →
            Forall (λ c, c = 10%N ∨ printable c)
              (_sse_event type (json_dumps_obj items))).
  { intros type items Htype. unfold _sse_event.
    rewrite (escape_newlines_printable _ (json_dumps_obj_printable items)).
    rewrite !Forall_app.
    assert (Hp : ∀ s, Forall printable s →
                 Forall (λ c, c = 10%N ∨ printable c) s)
      by (intros s Hs; eapply Forall_impl; [exact Hs|auto]).
    split; [by apply Hp, lit_printable_dec|].
    split; [by apply Hp, lit_printable_dec|].
    split; [by repeat constructor; left|].
    split; [by apply Hp, lit_printable_dec|].
    split; [apply Hp, json_dumps_obj_printable|].
    by repeat constructor; left. }
  split; [|split]; by apply Hframe.
Qed.

(** ** The regular expressions on a response with text around the JSON *)

Lemma drop_until_found c pre r : c ∉ pre → drop_until c (pre ++ c :: r) = c :: r.
Proof.
  induction pre as [|a pre IH]; intros Hc; cbn [app drop_until].
  - by rewrite N.eqb_refl.
  - apply not_elem_of_cons in Hc as [Hne Hc].
    destruct (a =? c)%N eqn:Ha; [apply N.eqb_eq in Ha; congruence|].
    by apply IH.
Qed.

Lemma drop_until_missing c s : c ∉ s → drop_until c s = [].
Proof.
  induction s as [|a s IH]; intros Hc; cbn [drop_until]; [done|].
  apply not_elem_of_cons in Hc as [Hne Hc].
  destruct (a =? c)%N eqn:Ha; [apply N.eqb_eq in Ha; congruence|].
  by apply IH.
Qed.

Lemma take_through_found c body post :
  c ∉ body → take_through c (body ++ c :: post) = Some (body ++ [c]).
Proof.
  induction body as [|a body IH]; intros Hc; cbn [app take_through].
  - by rewrite N.eqb_refl.
  - apply not_elem_of_cons in Hc as [Hne Hc].
    destruct (a =? c)%N eqn:Ha; [apply N.eqb_eq in Ha; congruence|].
    by rewrite IH.
Qed.

Lemma take_through_missing c s : c ∉ s → take_through c s = None.
Proof.
  induction s as [|a s IH]; intros Hc; cbn [take_through]; [done|].
  apply not_elem_of_cons in Hc as [Hne Hc].
  destruct (a =? c)%N eqn:Ha; [apply N.eqb_eq in Ha; congruence|].
  by rewrite IH.
Qed.

Lemma re_search_list_found pre body post :
  c_lbracket ∉ pre → c_rbracket ∉ body →
  re_search_list (pre ++ [c_lbracket] ++ body ++ [c_rbracket] ++ post)
  = Some ([c_lbracket] ++ body ++ [c_rbracket]).
Proof.
  intros Hpre Hbody. unfold re_search_list. cbn [app].
  rewrite drop_until_found by done.
  by rewrite take_through_found.
Qed.

Lemma re_search_object_found pre body post :
  c_lbrace ∉ pre → c_rbrace ∉ post →
  re_search_object (pre ++ [c_lbrace] ++ body ++ [c_rbrace] ++ post)
  = Some ([c_lbrace] ++ body ++ [c_rbrace]).
Proof.
  intros Hpre Hpost. unfold re_search_object. cbn [app].
  rewrite drop_until_found by done.
  rewrite reverse_app, reverse_cons, <- app_assoc. cbn [app].
  rewrite drop_until_found by (by rewrite elem_of_reverse).
  by rewrite reverse_cons, reverse_involutive.
Qed.

Section Parsing.

Context `{Env}.

(** X3: text before the first opening bracket and after the first closing
    bracket is ignored by the team selection; a response without an opening
    bracket, or with no closing bracket after the first opening one, is
    parsed as a whole. *)
Theorem X3_parse_ids_ignores_surrounding_text :
  (∀ pre body post,
     c_lbracket ∉ pre → c_rbracket ∉ body →
     parse_ids (pre ++ [c_lbracket] ++ body ++ [c_rbracket] ++ post)
     = loads ([c_lbracket] ++ body ++ [c_rbracket]))
  ∧ (∀ res, c_lbracket ∉ res → parse_ids res = loads res)
  ∧ (∀ pre rest,
       c_lbracket ∉ pre → c_rbracket ∉ rest →
       parse_ids (pre ++ [c_lbracket] ++ rest)
       = loads (pre ++ [c_lbracket] ++ rest)).
Proof.
  split; [|split].
  - intros pre body post Hpre Hbody. unfold parse_ids.
    by rewrite re_search_list_found.
  - intros res Hres. unfold parse_ids, re_search_list.
    by rewrite drop_until_missing.
  - intros pre rest Hpre Hrest. unfold parse_ids, re_search_list. cbn [app].
    rewrite drop_until_found by done.
    by rewrite take_through_missing.
Qed.

(** X4: the coordinator decision is taken from the first opening brace to the
    last closing brace of the response: text before and after is ignored,
    and a response without an opening brace is parsed as a whole. *)
Theorem X4_parse_object_ignores_surrounding_text :
  (∀ pre body post,
     c_lbrace ∉ pre → c_rbrace ∉ post →
     parse_object (pre ++ [c_lbrace] ++ body ++ [c_rbrace] ++ post)
     = loads ([c_lbrace] ++ body ++ [c_rbrace]))
  ∧ (∀ res, c_lbrace ∉ res → parse_object res = loads res).
Proof.
  split.
  - intros pre body post Hpre Hpost. unfold parse_object.
    by rewrite re_search_object_found.
  - intros res Hres. unfold parse_object, re_search_object.
    by rewrite drop_until_missing.
Qed.

End Parsing.

(** ** More on the team selection *)

Lemma filter_exc_sublist {A} (p : A → exc bool) l r :
  filter_exc p l = ok r → r `sublist_of` l.
Proof.
  revert r. induction l as [|a l IH]; intros r; cbn [filter_exc].
  - intros [= <-]. constructor.
  - destruct (p a) as [e|b]; cbn [ebind]; [done|].
    destruct (filter_exc p l) as [e|r']; cbn [ebind]; [done|].
    intros Hr. assert (r = if b then a :: r' else r') as -> by congruence.
    destruct b; [apply sublist_skip|apply sublist_cons]; by apply IH.
Qed.

Section TeamMore.

Context `{Env}.

Lemma find_agent_Some d i a :
  list_find (λ a, a_id a = d) AGENT_POOL = Some (i, a) →
  a ∈ AGENT_POOL ∧ a_id a = d.
Proof.
  intros (Hi & Hid & _)%list_find_Some. split; [|done].
  by eapply list_elem_of_lookup_2.
Qed.

Lemma fill_subset existing ds sel :
  sel ⊆ AGENT_POOL → foldl (fill_step existing) sel ds ⊆ AGENT_POOL.
Proof.
  revert sel. induction ds as [|d ds IH]; intros sel Hsel; cbn [foldl];
    [done|].
  apply IH. unfold fill_step.
  destruct (_ && _); [|done].
  destruct (list_find _ _) as [[i fb]|] eqn:Hfb; [|done].
  apply find_agent_Some in Hfb as [Hfb _].
  intros a [Ha|Ha%list_elem_of_singleton]%elem_of_app; [by apply Hsel|].
  by subst.
Qed.

Lemma fill_ids_NoDup existing ds sel :
  NoDup ds → NoDup (a_id <$> sel) →
  (∀ a, a ∈ sel → a_id a ∈ existing ∨ a_id a ∉ ds) →
  NoDup (a_id <$> foldl (fill_step existing) sel ds).
Proof.
  intros Hds. revert sel.
  induction Hds as [|d ds Hd Hds IH]; intros sel Hsel Hinv; cbn [foldl];
    [done|].
  assert (Hweak : ∀ a, a ∈ sel → a_id a ∈ existing ∨ a_id a ∉ ds).
  { intros a Ha. destruct (Hinv a Ha) as [?|Hn]; [by left|right].
    by apply not_elem_of_cons in Hn as [_ ?]. }
  unfold fill_step at 2.
  destruct (bool_decide (d ∉ existing)) eqn:Hex; cbn [andb];
    [|by apply IH].
  apply bool_decide_eq_true in Hex.
  destruct (length sel <? 5); [|by apply IH].
  destruct (list_find _ _) as [[i fb]|] eqn:Hfb; [|by apply IH].
  apply find_agent_Some in Hfb as [_ Hid].
  apply IH.
  - rewrite fmap_app. cbn [fmap list_fmap]. apply NoDup_app.
    split; [done|]. split; [|apply NoDup_singleton].
    intros x Hx ->%list_elem_of_singleton.
    apply list_elem_of_fmap in Hx as (a & Hxa & Ha).
    destruct (Hinv a Ha) as [Hin|Hout].
    + apply Hex. congruence.
    + apply Hout. rewrite <- Hxa, Hid. apply list_elem_of_here.
  - intros a [Ha|Ha%list_elem_of_singleton]%elem_of_app; [by apply Hweak|].
    subst a. right. by rewrite Hid.
Qed.

Lemma default_team_bounds :
  NoDup (a_id <$> AGENT_POOL) →
  length default_team ≤ 5 ∧ NoDup (a_id <$> default_team).
Proof.
  intros Hpool. unfold default_team.
  assert (Hnd : NoDup (a_id <$> filter (λ a, a_id a ∈ defaults) AGENT_POOL)).
  { eapply sublist_NoDup; [exact Hpool|]. apply fmap_sublist, sublist_filter. }
  split; [|done].
  rewrite <- (length_fmap a_id). change 5 with (length defaults).
  apply submseteq_length, NoDup_submseteq; [done|].
  intros x (a & -> & Ha)%list_elem_of_fmap.
  by apply list_elem_of_filter in Ha as [? _].
Qed.

Lemma team_of_response_bounds res :
  team_of_response res ⊆ AGENT_POOL
  ∧ (NoDup (a_id <$> AGENT_POOL) →
     length (team_of_response res) ≤ 5
     ∧ NoDup (a_id <$> team_of_response res)).
Proof.
  unfold team_of_response.
  destruct (parse_ids res) as [e|ids]; cbn [ebind].
  { split; [intros a Ha; by apply list_elem_of_filter in Ha as [_ ?]|].
    apply default_team_bounds. }
  unfold team_of_ids.
  destruct (filter_exc _ AGENT_POOL) as [e|selected] eqn:Hsel; cbn [ebind].
  { split; [intros a Ha; by apply list_elem_of_filter in Ha as [_ ?]|].
    apply default_team_bounds. }
  apply filter_exc_sublist in Hsel.
  assert (Hsub : selected ⊆ AGENT_POOL)
    by (intros a Ha; by eapply elem_of_sublist).
  split.
  - intros a Ha.
    assert (Ht : a ∈ (if length selected <? 5
                      then foldl (fill_step (a_id <$> selected)) selected
                             defaults
                      else selected))
      by (eapply elem_of_sublist; [exact Ha|apply sublist_take]).
    destruct (length selected <? 5); [|by apply Hsub].
    by eapply fill_subset.
  - intros Hpool. split; [rewrite length_take; lia|].
    eapply sublist_NoDup; [|apply fmap_sublist, sublist_take].
    assert (Hnd : NoDup (a_id <$> selected))
      by (eapply sublist_NoDup; [exact Hpool|by apply fmap_sublist]).
    destruct (length selected <? 5); [|done].
    apply fill_ids_NoDup; [apply defaults_NoDup|done|].
    intros a Ha. left. by apply list_elem_of_fmap_2.
Qed.

(** X5: the team is made of catalog entries; when the ids of the catalog are
    distinct it has at most five members and no agent twice, whatever the
    service answered. *)
Theorem X5_team_of_distinct_catalog_entries res :
  team_of_response res ⊆ AGENT_POOL
  ∧ (NoDup (a_id <$> AGENT_POOL) →
     length (team_of_response res) ≤ 5
     ∧ NoDup (a_id <$> team_of_response res)).
Proof. apply team_of_response_bounds. Qed.

Lemma fill_from_nothing ds sel :
  length sel + length ds ≤ 5 →
  foldl (fill_step []) sel ds
  = sel ++ omap (λ d, snd <$> list_find (λ a, a_id a = d) AGENT_POOL) ds.
Proof.
  revert sel. induction ds as [|d ds IH]; intros sel Hlen; cbn [foldl].
  - by rewrite app_nil_r.
  - cbn [length] in Hlen. unfold fill_step at 2.
    rewrite bool_decide_eq_true_2 by apply not_elem_of_nil.
    destruct (length sel <? 5) eqn:Hlt; [|apply Nat.ltb_ge in Hlt; lia].
    cbn [andb]. change (d :: ds) with ([d] ++ ds). rewrite omap_app.
    cbn [omap list_omap].
    destruct (list_find _ _) as [[i fb]|];
      cbn [fmap option_fmap option_map snd app].
    + rewrite IH by (rewrite length_app; cbn [length]; lia).
      by rewrite <- app_assoc.
    + apply IH. lia.
Qed.

Lemma omap_length_le {A B} (f : A → option B) (l : list A) :
  length (omap f l) ≤ length l.
Proof.
  induction l as [|a l IH]; [done|].
  change (a :: l) with ([a] ++ l). rewrite omap_app, !length_app.
  assert (length (omap f [a]) ≤ 1)
    by (cbn [omap list_omap]; destruct (f a); cbn [length]; lia).
  cbn [length]. lia.
Qed.

Lemma priority_team_length : length priority_team ≤ 5.
Proof. unfold priority_team. etrans; [apply omap_length_le|]. done. Qed.

Lemma team_of_no_match ids :
  filter_exc (λ a, py_in (a_id a) ids) AGENT_POOL = ok [] →
  team_of_ids ids = ok priority_team.
Proof.
  intros Hsel. unfold team_of_ids. rewrite Hsel.
  cbn [ebind length fmap list_fmap].
  change (0 <? 5) with true. cbv iota.
  rewrite fill_from_nothing
    by (cbn [length]; change (length defaults) with 5; lia).
  cbn [app]. fold priority_team.
  by rewrite take_ge by apply priority_team_length.
Qed.

Lemma filter_exc_none {A} (l : list A) :
  filter_exc (λ _, ok false) l = ok [].
Proof.
  induction l as [|a l IH]; cbn [filter_exc ebind]; [done|]. by rewrite IH.
Qed.

Lemma generate_sync_result p t j s :
  (generate_sync p t j s).1
  = ok (sync_text j (generate_content (sync_request p t j) (world s)).1).
Proof.
  unfold generate_sync, bind, call_service, print, ret.
  fold (sync_request p t j).
  by destruct (generate_content (sync_request p t j) (world s))
    as [[txt| |msg] w].
Qed.

Lemma team_of_empty_object :
  json_loads (lit "{}") = Some (JDict []) →
  team_of_response (lit "{}") = priority_team.
Proof.
  intros Hloads. unfold team_of_response, parse_ids.
  change (re_search_list (lit "{}")) with (@None str).
  unfold loads. rewrite Hloads. cbn [ebind].
  rewrite team_of_no_match; [done|].
  rewrite (filter_exc_ext _ (λ _, ok false)); [apply filter_exc_none|].
  intros a. cbn [py_in fmap list_fmap].
  by rewrite bool_decide_eq_false_2 by apply not_elem_of_nil.
Qed.

(** X6: when the service is blocked or fails on the team selection, the team is
    made of the default agents that the catalog has, in the order of the
    default list, not in the order of the catalog. *)
Theorem X6_team_after_service_failure task s :
  json_loads (lit "{}") = Some (JDict []) →
  (∀ text,
     (generate_content (team_request task) (world s)).1 ≠ Text text) →
  (_select_best_team task s).1 = ok priority_team.
Proof.
  intros Hloads Hfail. unfold _select_best_team, bind.
  pose proof (generate_sync_result
                (TeamPrompt task
                   ((λ a, (a_id a, a_role a, take 50 (a_description a)))
                      <$> AGENT_POOL)) 1 true s) as Hres.
  fold (team_request task) in Hres.
  destruct (generate_sync _ 1 true s) as [[e|res] s1]; cbn [fst] in *;
    [done|].
  assert (res = lit "{}") as ->.
  { destruct ((generate_content (team_request task) (world s)).1)
      as [text| |msg]; [by destruct (Hfail text)|..];
      cbn [sync_text] in Hres; congruence. }
  cbn [ret fst]. by rewrite team_of_empty_object.
Qed.

(** With an empty catalog every response gives the empty team. *)
Lemma team_of_empty_catalog res :
  AGENT_POOL = [] → team_of_response res = [].
Proof.
  intros Hpool.
  destruct (team_of_response_bounds res) as [Hsub _].
  rewrite Hpool in Hsub.
  destruct (team_of_response res) as [|a team]; [done|].
  by destruct (not_elem_of_nil a (Hsub a (list_elem_of_here _ _))).
Qed.

End TeamMore.

(** ** The role map *)

Lemma dict_set_keys {V} k (v : V) (d : list (str * V)) :
  (dict_set k v d).*1 = if bool_decide (k ∈ d.*1) then d.*1 else d.*1 ++ [k].
Proof.
  induction d as [|[k' v'] d IH]; cbn [dict_set fmap list_fmap fst].
  - by rewrite bool_decide_eq_false_2 by apply not_elem_of_nil.
  - destruct (decide (k' = k)) as [->|Hne].
    + rewrite bool_decide_eq_true_2 by done.
      by rewrite bool_decide_eq_true_2 by apply list_elem_of_here.
    + rewrite bool_decide_eq_false_2 by done.
      cbn [fmap list_fmap fst]. rewrite IH.
      destruct (decide (k ∈ d.*1)) as [Hin|Hout].
      * rewrite !bool_decide_eq_true_2;
          [done|by apply list_elem_of_further|done].
      * rewrite !bool_decide_eq_false_2; [done| |done].
        intros [?|?]%elem_of_cons; congruence.
Qed.

Lemma dict_get_set {V} k (v : V) (d : list (str * V)) :
  dict_get (dict_set k v d) k = Some v.
Proof.
  induction d as [|[k' v'] d IH]; cbn [dict_set dict_get].
  - by rewrite bool_decide_eq_true_2.
  - destruct (decide (k' = k)) as [->|Hne].
    + rewrite bool_decide_eq_true_2 by done. cbn [dict_get].
      by rewrite bool_decide_eq_true_2.
    + rewrite bool_decide_eq_false_2 by done. cbn [dict_get].
      by rewrite bool_decide_eq_false_2.
Qed.

Lemma dict_get_set_ne {V} k k' (v : V) (d : list (str * V)) :
  k ≠ k' → dict_get (dict_set k v d) k' = dict_get d k'.
Proof.
  intros Hkk. induction d as [|[k0 v0] d IH]; cbn [dict_set dict_get].
  - by rewrite bool_decide_eq_false_2.
  - destruct (decide (k0 = k)) as [->|Hne].
    + rewrite bool_decide_eq_true_2 by done. cbn [dict_get].
      by rewrite bool_decide_eq_false_2.
    + rewrite bool_decide_eq_false_2 by done. cbn [dict_get].
      by rewrite IH.
Qed.

Lemma dict_get_is_Some {V} (d : list (str * V)) k :
  is_Some (dict_get d k) ↔ k ∈ d.*1.
Proof.
  induction d as [|[k0 v0] d IH]; cbn [dict_get fmap list_fmap fst].
  - split; [by intros [? ?]|by intros ?%elem_of_nil].
  - destruct (decide (k0 = k)) as [->|Hne].
    + rewrite bool_decide_eq_true_2 by done.
      split; [intros _; apply list_elem_of_here|by eexists].
    + rewrite bool_decide_eq_false_2 by done. rewrite IH, elem_of_cons.
      split; [by right|]. by intros [?|?]; [congruence|].
Qed.

Section RoleMap.

Context `{Env}.

Lemma build_roles_map_snoc rows r :
  build_roles_map (rows ++ [r])
  = dict_set (r_role_name r) (resolve_agent (r_agent_id r))
      (build_roles_map rows).
Proof. unfold build_roles_map. by rewrite foldl_app. Qed.

Lemma build_roles_map_keys_snoc rows r :
  (build_roles_map (rows ++ [r])).*1
  = if bool_decide (r_role_name r ∈ (build_roles_map rows).*1)
    then (build_roles_map rows).*1
    else (build_roles_map rows).*1 ++ [r_role_name r].
Proof. by rewrite build_roles_map_snoc, dict_set_keys. Qed.

Lemma build_roles_map_keys rows :
  NoDup (build_roles_map rows).*1
  ∧ (∀ k, k ∈ (build_roles_map rows).*1 ↔ k ∈ r_role_name <$> rows)
  ∧ length (build_roles_map rows).*1 ≤ length rows
  ∧ (NoDup (r_role_name <$> rows) →
     (build_roles_map rows).*1 = r_role_name <$> rows).
Proof.
  induction rows as [|r rows (Hnd & Hin & Hlen & Heq)] using rev_ind.
  - split; [constructor|]. split; [done|]. split; [done|done].
  - rewrite build_roles_map_keys_snoc, fmap_app, length_app.
    cbn [fmap list_fmap length].
    destruct (decide (r_role_name r ∈ (build_roles_map rows).*1))
      as [Hold|Hnew].
    + rewrite bool_decide_eq_true_2 by done.
      split; [done|]. split.
      { intros k. rewrite elem_of_app, list_elem_of_singleton, Hin.
        split; [by left|]. intros [?| ->]; [done|]. by apply Hin. }
      split; [lia|].
      intros [_ [Hdisj _]]%NoDup_app.
      destruct (Hdisj (r_role_name r)); [by apply Hin|].
      apply list_elem_of_here.
    + rewrite bool_decide_eq_false_2 by done.
      split.
      { apply NoDup_app. split; [done|]. split; [|apply NoDup_singleton].
        by intros k Hk ->%list_elem_of_singleton. }
      split.
      { intros k. by rewrite !elem_of_app, Hin. }
      split; [rewrite length_app; cbn [length]; lia|].
      intros [Hnames _]%NoDup_app. by rewrite Heq.
Qed.

(** X11: the candidates of a discussion are its assigned role names, each once:
    two rows with one role name give one candidate. When the role names of
    the rows are distinct, the candidates are these names in the order of the
    rows. *)
Theorem X11_candidates_are_the_distinct_role_names rows :
  NoDup (build_roles_map rows).*1
  ∧ (∀ k, k ∈ (build_roles_map rows).*1 ↔ k ∈ r_role_name <$> rows)
  ∧ length (build_roles_map rows).*1 ≤ length rows
  ∧ (NoDup (r_role_name <$> rows) →
     (build_roles_map rows).*1 = r_role_name <$> rows).
Proof. apply build_roles_map_keys. Qed.

(** X12: the entry of a role name in the role map is made from the last row with
    that name: the catalog entry of its agent id, or the placeholder when the
    catalog has no such id. So every candidate has an entry. *)
Theorem X12_role_map_entry_comes_from_the_last_row pre r post :
  r_role_name r ∉ r_role_name <$> post →
  dict_get (build_roles_map (pre ++ r :: post)) (r_role_name r)
  = Some (resolve_agent (r_agent_id r)).
Proof.
  induction post as [|q post IH] using rev_ind; intros Hlast.
  - by rewrite build_roles_map_snoc, dict_get_set.
  - rewrite fmap_app in Hlast.
    apply not_elem_of_app in Hlast as [Hpost Hq].
    change (pre ++ r :: post ++ [q]) with (pre ++ (r :: post) ++ [q]).
    rewrite app_assoc, build_roles_map_snoc, dict_get_set_ne; [by apply IH|].
    intros Heq. apply Hq. rewrite <- Heq. cbn [fmap list_fmap].
    apply list_elem_of_here.
Qed.

End RoleMap.

(** ** The coordinator decision on a failing service and on text that is
    not JSON *)

Lemma subscript_first k v items : subscript (JDict ((k, v) :: items)) k = ok v.
Proof.
  unfold subscript. cbn [list_find fst]. by rewrite decide_True.
Qed.

Lemma subscript_second k1 v1 k2 v2 items :
  k1 ≠ k2 → subscript (JDict ((k1, v1) :: (k2, v2) :: items)) k2 = ok v2.
Proof.
  intros Hne. unfold subscript. cbn [list_find fst].
  rewrite decide_False by done. by rewrite decide_True.
Qed.

Section Decision.

Context `{Env}.

Lemma turn_decide_result did task roles_map turn s :
  (turn_decide did task roles_map turn s).1
  = match decision_of roles_map.*1
            (sync_text true (coordinator_reply did task roles_map turn s)) with
    | inl e => inl e
    | inr d => ok (history_at did s, d)
    end.
Proof.
  unfold turn_decide, bind, select_messages_ordered, yield, read_last_speaker,
    _pm_brain, bind, decision_of, coordinator_reply, coordinator_request.
  fold (history_at did s).
  match goal with
  | |- context [generate_sync ?p 5 true ?s1] =>
      pose proof (generate_sync_result p 5 true s1) as Hres;
      destruct (generate_sync p 5 true s1) as [[e|res] s2]
  end; cbn [fst world set_out last_speaker] in *; [done|].
  assert (res = sync_text true
                  (generate_content
                     (sync_request
                        (CoordinatorPrompt task (phase_of turn)
                           (history_at did s)
                           (filter (λ c, c ≠ last_speaker s) roles_map.*1))
                        5 true) (world s)).1) as -> by congruence.
  destruct (parse_object _) as [e|d]; [|done].
  unfold lift, ret. by destruct (py_index roles_map.*1 0).
Qed.

Lemma attempt_failed did task roles_map turn s e :
  ((turn_decide did task roles_map turn s).1 = inl e
   ∨ ∃ history d,
       (turn_decide did task roles_map turn s).1 = ok (history, d)
       ∧ turn_choice d roles_map turn = inl e) →
  ∃ s',
    attempt did task roles_map turn s = (ok tt, s')
    ∧ messages (db s') = messages (db s)
    ∧ turn_errors (console s') = turn_errors (console s) ++ [e]
    ∧ out s' = out s ++ [phase_status turn]
    ∧ last_speaker s' = last_speaker s.
Proof.
  intros Hcause.
  destruct (attempt_spec did task roles_map turn s) as (s' & Heq & Ho).
  exists s'. split; [done|].
  destruct Ho as [d' speaker ins lines tokens i1 t1 i2 t2 Hd' Hc' Hev Hl Hn
                 |e' lines Hcause' Hev Hl Hn].
  - destruct Hcause as [Hbad|(history & d & Hd & Hbad)]; [congruence|].
    rewrite Hd in Hd'. assert (d' = d) as -> by congruence. congruence.
  - assert (e' = e) as ->.
    { destruct Hcause as [Hd|(history & d & Hd & Hc)];
        destruct Hcause' as [Hd'|(d' & Hd' & Hc')]; congruence. }
    split; [by rewrite (ev_messages _ _ _ _ _ _ Hev), app_nil_r|].
    split; [|split; [exact (ev_out _ _ _ _ _ _ Hev)|done]].
    rewrite (ev_console _ _ _ _ _ _ Hev), !turn_errors_app.
    by rewrite (turn_errors_none _ Hn).
Qed.

Lemma attempt_completed did task roles_map turn s history d speaker ins :
  (turn_decide did task roles_map turn s).1 = ok (history, d) →
  turn_choice d roles_map turn = ok (speaker, ins) →
  ∃ s' tokens i1 t1 i2 t2,
    attempt did task roles_map turn s = (ok tt, s')
    ∧ messages (db s')
      = messages (db s)
          ++ [Build_message_row i1 did (lit "PM")
                (pm_content turn speaker ins) t1;
              Build_message_row i2 did speaker (concat tokens) t2]
    ∧ turn_errors (console s') = turn_errors (console s)
    ∧ out s' = out s ++ phase_status turn
                 :: speaking_events turn speaker ins tokens
    ∧ last_speaker s' = speaker.
Proof.
  intros Hd Hc.
  destruct (attempt_spec did task roles_map turn s) as (s' & Heq & Ho).
  destruct Ho as [d' speaker' ins' lines tokens i1 t1 i2 t2 Hd' Hc' Hev Hl Hn
                 |e' lines Hcause' Hev Hl Hn].
  - rewrite Hd in Hd'. assert (d' = d) as -> by congruence.
    rewrite Hc in Hc'.
    assert (speaker' = speaker ∧ ins' = ins) as [-> ->] by (split; congruence).
    exists s', tokens, i1, t1, i2, t2. split; [done|].
    split; [exact (ev_messages _ _ _ _ _ _ Hev)|].
    split; [|split; [exact (ev_out _ _ _ _ _ _ Hev)|done]].
    rewrite (ev_console _ _ _ _ _ _ Hev), turn_errors_app.
    by rewrite (turn_errors_none _ Hn), app_nil_r.
  - destruct Hcause' as [Hbad|(d' & Hd' & Hbad)]; [congruence|].
    rewrite Hd in Hd'. assert (d' = d) as -> by congruence. congruence.
Qed.

(** X13: when the service is blocked or fails on the coordinator request, the
    text [{}] is parsed as the decision, so the fallback to the first
    candidate is not taken: the turn ends on the missing key, after its
    status event, and persists nothing. *)
Theorem X13_coordinator_failure_ends_the_turn did task roles_map turn s :
  json_loads (lit "{}") = Some (JDict []) →
  (∀ text, coordinator_reply did task roles_map turn s ≠ Text text) →
  ∃ s',
    attempt did task roles_map turn s = (ok tt, s')
    ∧ messages (db s') = messages (db s)
    ∧ turn_errors (console s') = turn_errors (console s) ++ [KeyError]
    ∧ out s' = out s ++ [phase_status turn]
    ∧ last_speaker s' = last_speaker s.
Proof.
  intros Hloads Hfail. apply attempt_failed. right.
  exists (history_at did s), (JDict []). split; [|done].
  rewrite turn_decide_result.
  assert (sync_text true (coordinator_reply did task roles_map turn s)
          = lit "{}") as ->.
  { destruct (coordinator_reply did task roles_map turn s) as [text| |msg];
      [by destruct (Hfail text)|done|done]. }
  unfold decision_of, parse_object.
  change (re_search_object (lit "{}")) with (Some (lit "{}")).
  unfold loads. by rewrite Hloads.
Qed.

(** X14: when the text of the service for the coordinator decision cannot be
    parsed, the speaker is the first candidate, whoever spoke before, with
    the generic instruction, and the turn runs to its end. *)
Theorem X14_unparsable_decision_gives_the_first_candidate
    did task roles_map turn s text e first others :
  coordinator_reply did task roles_map turn s = Text text →
  parse_object (strip text) = inl e →
  roles_map.*1 = first :: others →
  ∃ s' tokens i1 t1 i2 t2,
    attempt did task roles_map turn s = (ok tt, s')
    ∧ messages (db s')
      = messages (db s)
          ++ [Build_message_row i1 did (lit "PM")
                (pm_content turn first generic_instruction) t1;
              Build_message_row i2 did first (concat tokens) t2]
    ∧ turn_errors (console s') = turn_errors (console s)
    ∧ out s' = out s ++ phase_status turn
                 :: speaking_events turn first generic_instruction tokens
    ∧ last_speaker s' = first.
Proof.
  intros Hreply Hparse Hroles.
  apply (attempt_completed _ _ _ _ _ (history_at did s)
           (JDict [(lit "next_speaker", JStr first);
                   (lit "instruction", generic_instruction)])).
  - rewrite turn_decide_result, Hreply. cbn [sync_text].
    unfold decision_of. rewrite Hparse, Hroles. done.
  - unfold turn_choice. rewrite subscript_first. cbn [ebind].
    rewrite subscript_second by (intros Heq; vm_compute in Heq; done).
    cbn [ebind]. unfold choose_speaker, find_role. cbn [ebind].
    rewrite bool_decide_eq_true_2; [done|].
    rewrite Hroles. apply list_elem_of_here.
Qed.

(** X15: the same without any assigned role: the fallback itself raises, and the
    turn ends after its status event with nothing persisted. *)
Theorem X15_unparsable_decision_without_roles did task turn s text e :
  coordinator_reply did task [] turn s = Text text →
  parse_object (strip text) = inl e →
  ∃ s',
    attempt did task [] turn s = (ok tt, s')
    ∧ messages (db s') = messages (db s)
    ∧ turn_errors (console s') = turn_errors (console s) ++ [IndexError]
    ∧ out s' = out s ++ [phase_status turn]
    ∧ last_speaker s' = last_speaker s.
Proof.
  intros Hreply Hparse. apply attempt_failed. left.
  rewrite turn_decide_result, Hreply. cbn [sync_text].
  unfold decision_of. by rewrite Hparse.
Qed.

End Decision.

(** ** What a whole run sends, stores and reports *)

Lemma transcript_chunks sender buffer tokens rest :
  transcript_from (Some (sender, buffer))
    ((StreamChunk <$> tokens) ++ StreamEnd :: rest)
  = (sender, buffer ++ concat tokens) :: transcript_from None rest.
Proof.
  revert buffer. induction tokens as [|t tokens IH]; intros buffer.
  - cbn [fmap list_fmap app transcript_from concat]. by rewrite app_nil_r.
  - rewrite fmap_cons. cbn [app transcript_from concat].
    by rewrite IH, <- app_assoc.
Qed.

Lemma choose_speaker_assigned ns (roles_map : list (str * agent_def)) turn sp :
  choose_speaker ns roles_map roles_map.*1 turn = ok sp → sp ∈ roles_map.*1.
Proof.
  unfold choose_speaker, find_role.
  assert (Hfallback :
            (try! i := py_mod turn (length roles_map.*1)
             in py_index roles_map.*1 i) = ok sp → sp ∈ roles_map.*1).
  { unfold py_mod, py_index. destruct (length roles_map.*1 =? 0); [done|].
    cbn [ebind].
    destruct (roles_map.*1 !! _) as [x|] eqn:Hx; [|done].
    intros Heq. assert (x = sp) as -> by congruence.
    by eapply list_elem_of_lookup_2. }
  destruct ns as [| | |x| |]; cbn [ebind]; try done.
  destruct (decide (x ∈ roles_map.*1)) as [Hin|Hout].
  - rewrite bool_decide_eq_true_2 by done. intros Heq.
    by assert (x = sp) as -> by congruence.
  - by rewrite bool_decide_eq_false_2 by done.
Qed.

Section RunDetails.

Context `{Env}.

Lemma turn_choice_assigned d roles_map turn sp ins :
  turn_choice d roles_map turn = ok (sp, ins) → sp ∈ roles_map.*1.
Proof.
  unfold turn_choice.
  destruct (subscript d (lit "next_speaker")) as [?|ns]; cbn [ebind]; [done|].
  destruct (subscript d (lit "instruction")) as [?|i]; cbn [ebind]; [done|].
  destruct (choose_speaker ns roles_map roles_map.*1 turn) as [?|sp'] eqn:Hc;
    cbn [ebind]; [done|].
  intros Heq. assert (sp' = sp) as -> by congruence.
  by eapply choose_speaker_assigned.
Qed.

Lemma transcript_completed turn speaker ins tokens rest :
  transcript_from None
    ((phase_status turn :: speaking_events turn speaker ins tokens) ++ rest)
  = (lit "PM", pm_content turn speaker ins) :: (speaker, concat tokens)
      :: transcript_from None rest.
Proof.
  unfold phase_status, speaking_events.
  cbn [app]. rewrite <- app_assoc. cbn [app transcript_from].
  by rewrite transcript_chunks.
Qed.

Ltac chain Ha Hb :=
  let Hev := fresh "Hev" in
  pose proof (evolves_trans _ _ _ _ _ _ _ _ _ _ _ Ha Hb) as Hev;
  cbn [app] in Hev; rewrite ?app_nil_r in Hev;
  clear Ha Hb.

Lemma turns_run_details did task roles_map turns s s' :
  turns_run did task roles_map turns s s' →
  ∃ msgs lines rqs evs,
    evolves s s' msgs lines rqs evs
    ∧ (∀ rest,
         transcript_from None (evs ++ rest)
         = ((λ m, (m_sender m, m_content m)) <$> msgs)
             ++ transcript_from None rest)
    ∧ Forall (λ sp, sp ∈ roles_map.*1) (speakers evs)
    ∧ length rqs = length turns + length (speakers evs)
    ∧ length (turn_errors lines) + length (speakers evs) = length turns
    ∧ length msgs = 2 * length (speakers evs)
    ∧ Forall not_finished evs.
Proof.
  induction 1 as [s|turn turns s s1 s2 Ho Hr IH].
  - exists [], [], [], []. split; [apply evolves_refl|].
    split; [done|]. split; [constructor|]. done.
  - destruct IH as (msgs & lines & rqs & evs & Hev2 & Htr & Hsp & Hrq & Hte
                    & Hlen & Hnf).
    destruct Ho as [d speaker ins lines1 tokens i1 t1 i2 t2 Hd Hc Hev1 Hl1 Hn1
                   |e lines1 Hcause Hev1 Hl1 Hn1].
    + chain Hev1 Hev2.
      eexists _, _, _,
        ((phase_status turn :: speaking_events turn speaker ins tokens) ++ evs).
      split; [exact Hev|].
      assert (Hs : speakers ((phase_status turn
                               :: speaking_events turn speaker ins tokens)
                              ++ evs) = speaker :: speakers evs)
        by (by rewrite speakers_app, speakers_completed).
      rewrite Hs.
      split.
      { intros rest. rewrite <- app_assoc, transcript_completed, Htr. done. }
      split; [constructor; [by eapply turn_choice_assigned|done]|].
      split; [cbn [length]; lia|].
      split.
      { rewrite turn_errors_app, (turn_errors_none _ Hn1).
        cbn [app length]. lia. }
      split; [cbn [length]; lia|].
      apply Forall_app. split; [|done]. constructor; [done|].
      apply speaking_events_not_finished.
    + chain Hev1 Hev2.
      eexists _, _, _, ([phase_status turn] ++ evs).
      split; [exact Hev|].
      change (speakers ([phase_status turn] ++ evs)) with (speakers evs).
      split; [intros rest; exact (Htr rest)|].
      split; [done|].
      split; [cbn [length]; lia|].
      split.
      { rewrite !turn_errors_app, (turn_errors_none _ Hn1).
        cbn [app length turn_errors]. rewrite length_app.
        change (length (turn_errors [TurnError e])) with 1.
        cbn [length]. lia. }
      split; [done|]. by constructor.
Qed.

Lemma run_stream_details did disc s :
  find_discussion did (db s) = Some disc →
  ∃ s' msgs lines rqs evs report,
    run_stream did s = (ok tt, s')
    ∧ evolves s s' msgs lines rqs (evs ++ [closing_status; Finished report])
    ∧ (λ m, (m_sender m, m_content m)) <$> msgs
      = transcript (evs ++ [closing_status; Finished report])
    ∧ Forall (λ sp, sp ∈ (build_roles_map
                            (filter (λ r, r_discussion_id r = did)
                               (roles (db s)))).*1) (speakers evs)
    ∧ length rqs = 11 + length (speakers evs)
    ∧ length (turn_errors lines) + length (speakers evs) = 10
    ∧ length msgs = 2 * length (speakers evs)
    ∧ Forall not_finished evs.
Proof.
  intros Hdisc. unfold run_stream, bind, select_discussion, select_roles.
  rewrite Hdisc. unfold assign_last_speaker. cbv beta iota.
  set (roles_map := build_roles_map _).
  set (s0 := set_last_speaker (lit "PM") s).
  assert (Hev0 : evolves s s0 [] [] [] []) by (split; by rewrite ?app_nil_r).
  destruct (loop_spec did (d_task disc) roles_map (seq 1 total_turns) s0)
    as (s1 & -> & Hrun).
  destruct (turns_run_details _ _ _ _ _ _ Hrun)
    as (msgs & lines & rqs & evs & Hev1 & Htr & Hsp & Hrq & Hte & Hlen & Hnf).
  fold closing_status.
  destruct (yield_spec closing_status s1) as (s2 & -> & Hev2 & _).
  destruct (generate_report_spec did (d_task disc) (d_goal disc) s2)
    as (report & s3 & lines' & -> & Hev3 & Hlines').
  destruct (yield_spec (Finished report) s3) as (s4 & -> & Hev4 & _).
  chain Hev0 Hev1. chain Hev Hev2. chain Hev0 Hev3. chain Hev Hev4.
  rewrite <- !app_assoc in Hev0. cbn [app] in Hev0.
  rewrite length_seq in Hrq, Hte.
  eexists s4, msgs, (lines ++ lines'), _, evs, report.
  split; [done|]. split; [exact Hev0|].
  split; [unfold transcript; rewrite Htr; cbn [transcript_from];
          by rewrite app_nil_r|].
  split; [done|].
  split; [rewrite length_app; cbn [length]; unfold total_turns in Hrq; lia|].
  split; [|done].
  rewrite turn_errors_app, (turn_errors_none _ Hlines'), app_nil_r.
  exact Hte.
Qed.

(** X16: every speaker that a run announces is a role assigned to the
    discussion, whatever the service named. *)
Theorem X16_speakers_are_assigned_roles did s :
  Forall (λ sp, sp ∈ r_role_name
                      <$> filter (λ r, r_discussion_id r = did) (roles (db s)))
    (speakers (events_of_run did s)).
Proof.
  unfold events_of_run.
  destruct (find_discussion did (db (start_generator s))) as [disc|] eqn:Hdisc.
  - destruct (run_stream_details did disc (start_generator s) Hdisc)
      as (s' & msgs & lines & rqs & evs & report & -> & Hev & _ & Hsp & _).
    cbn [snd]. rewrite (ev_out _ _ _ _ _ _ Hev).
    cbn [start_generator set_out out app db] in *.
    rewrite speakers_app. change (speakers [closing_status; Finished report])
      with (@nil str). rewrite app_nil_r.
    eapply Forall_impl; [exact Hsp|]. intros sp Hin.
    by apply build_roles_map_keys.
  - rewrite (run_stream_missing _ _ Hdisc). constructor.
Qed.

(** X17: what a run stores is what it streams: the senders and contents of the
    messages a run adds are, in order, the coordinator messages of its
    [message] events and, for every speaker, the chunks streamed between
    [stream_start] and [stream_end] put together. *)
Theorem X17_stored_messages_are_the_streamed_ones did s :
  ∃ new,
    messages (db (run_stream did (start_generator s)).2)
    = messages (db s) ++ new
    ∧ (λ m, (m_sender m, m_content m)) <$> new
      = transcript (events_of_run did s).
Proof.
  unfold events_of_run.
  destruct (find_discussion did (db (start_generator s))) as [disc|] eqn:Hdisc.
  - destruct (run_stream_details did disc (start_generator s) Hdisc)
      as (s' & msgs & lines & rqs & evs & report & -> & Hev & Htr & _).
    cbn [snd]. exists msgs.
    rewrite (ev_messages _ _ _ _ _ _ Hev), (ev_out _ _ _ _ _ _ Hev).
    by cbn [start_generator set_out out app db].
  - rewrite (run_stream_missing _ _ Hdisc). exists [].
    by rewrite app_nil_r.
Qed.

(** X18: the cost of a run on a discussion that exists: one request for the
    coordinator in each of the ten turns, one for every speaker that was
    announced and one for the report, so between 11 and 21; each turn either
    announces a speaker or reports one exception; and two messages are stored
    for every announced speaker. *)
Theorem X18_requests_and_failures_of_a_run did disc s :
  find_discussion did (db s) = Some disc →
  ∃ new_requests new_lines new_messages,
    requests (run_stream did (start_generator s)).2
    = requests s ++ new_requests
    ∧ console (run_stream did (start_generator s)).2 = console s ++ new_lines
    ∧ messages (db (run_stream did (start_generator s)).2)
      = messages (db s) ++ new_messages
    ∧ length new_requests = 11 + length (speakers (events_of_run did s))
    ∧ length (turn_errors new_lines)
      + length (speakers (events_of_run did s)) = 10
    ∧ length new_messages = 2 * length (speakers (events_of_run did s)).
Proof.
  intros Hdisc. unfold events_of_run.
  destruct (run_stream_details did disc (start_generator s) Hdisc)
    as (s' & msgs & lines & rqs & evs & report & -> & Hev & _ & _ & Hrq & Hte
        & Hlen & _).
  cbn [snd]. exists rqs, lines, msgs.
  rewrite (ev_requests _ _ _ _ _ _ Hev), (ev_console _ _ _ _ _ _ Hev),
    (ev_messages _ _ _ _ _ _ Hev), (ev_out _ _ _ _ _ _ Hev).
  cbn [start_generator set_out out app db requests console].
  rewrite speakers_app. change (speakers [closing_status; Finished report])
    with (@nil str). rewrite app_nil_r. done.
Qed.

End RunDetails.

(** ** Invariants of the machine *)





Section Invariants.

Context `{Env}.

Lemma keeps_ret (I : state → Prop) {A} (V : A → Prop) a :
  V a → keeps I V (ret a).
Proof. intros Ha s Hs. split; [done|]. by intros b [= <-]. Qed.

Lemma keeps_lift (I : state → Prop) {A} (V : A → Prop) (m : exc A) :
  (∀ a, m = ok a → V a) → keeps I V (lift m).
Proof. intros Hm s Hs. split; [done|]. exact Hm. Qed.

Lemma keeps_bind (I : state → Prop) {A B} (V : A → Prop) (W : B → Prop)
    (m : M A) (k : A → M B) :
  keeps I V m → (∀ a, V a → keeps I W (k a)) → keeps I W (bind m k).
Proof.
  intros Hm Hk s Hs. unfold bind. destruct (Hm s Hs) as [Hs1 Hv].
  destruct (m s) as [[e|a] s1]; cbn [fst snd] in *; [by split|].
  by apply Hk; [apply Hv|].
Qed.

Lemma keeps_weaken (I : state → Prop) {A} (V W : A → Prop) (m : M A) :
  keeps I V m → (∀ a, V a → W a) → keeps I W m.
Proof.
  intros Hm Hvw s Hs. destruct (Hm s Hs) as [Hs1 Hv]. split; [done|].
  intros a Ha. by apply Hvw, Hv.
Qed.

Lemma keeps_try (I : state → Prop) {A} (V : A → Prop) (m : M A)
    (h : exn → M A) :
  keeps I V m → (∀ e, keeps I V (h e)) → keeps I V (try_except m h).
Proof.
  intros Hm Hh s Hs. unfold try_except. destruct (Hm s Hs) as [Hs1 Hv].
  destruct (m s) as [[e|a] s1]; cbn [fst snd] in *; [by apply Hh|].
  split; [done|]. exact Hv.
Qed.

Lemma keeps_for_each (I : state → Prop) {A} (l : list A) (body : A → M unit) :
  (∀ a, a ∈ l → keeps I (λ _, True) (body a)) →
  keeps I (λ _, True) (for_each l body).
Proof.
  induction l as [|a l IH]; intros Hbody; cbn [for_each].
  - by apply keeps_ret.
  - eapply keeps_bind; [apply Hbody, list_elem_of_here|].
    intros _ _. apply IH. intros b Hb. by apply Hbody, list_elem_of_further.
Qed.

(** An operation that leaves the state component [f] alone keeps every
    invariant that reads [f] only. *)
Lemma keeps_frame {X} (f : state → X) (P : X → Prop) {A} (m : M A) :
  (∀ s, f (m s).2 = f s) → keeps (λ s, P (f s)) (λ _, True) m.
Proof. intros Hm s Hs. by rewrite Hm. Qed.

(** From here on [R] is kept when [_save_msg] adds a row, and [C] holds of
    every event that is not an empty chunk. *)
Variable R : list message_row → Prop.
Variable C : event → Prop.
Hypothesis R_saved : ∀ rows did sender content timestamp,
  R rows →
  R (rows ++ [{| m_id := next_rowid rows; m_discussion_id := did;
                 m_sender := sender; m_content := content;
                 m_timestamp := timestamp |}]).
Hypothesis C_chunk_ok : ∀ e, chunk_ok e → C e.

Lemma keeps_untouched {A} (m : M A) :
  (∀ s, messages (db (m s).2) = messages (db s) ∧ out (m s).2 = out s) →
  keeps (machine_ok R C) (λ _, True) m.
Proof using R_saved C_chunk_ok.
  intros Hm s [Hids Hout]. destruct (Hm s) as [Hmsgs Hevs].
  split; [|done]. split; congruence.
Qed.

Lemma keeps_extended {A} (m : M A) :
  (∀ s, ∃ msgs lines rqs evs,
     evolves s (m s).2 msgs lines rqs evs
     ∧ (R (messages (db s)) → R (messages (db s) ++ msgs))
     ∧ Forall C evs) →
  keeps (machine_ok R C) (λ _, True) m.
Proof using R_saved C_chunk_ok.
  intros Hm s [Hids Hout].
  destruct (Hm s) as (msgs & lines & rqs & evs & Hev & Hmsgs & Hevs).
  split; [|done]. split.
  - rewrite (ev_messages _ _ _ _ _ _ Hev). by apply Hmsgs.
  - rewrite (ev_out _ _ _ _ _ _ Hev). by apply Forall_app.
Qed.

Ltac untouched :=
  apply keeps_untouched; intros s;
  repeat match goal with
         | |- context [let (_, _) := ?x in _] => destruct x
         end;
  done.

Lemma keeps_yield e : chunk_ok e → keeps (machine_ok R C) (λ _, True) (yield e).
Proof using R_saved C_chunk_ok.
  intros He. apply keeps_extended. intros s.
  destruct (yield_spec e s) as (s' & -> & Hev & _).
  exists [], [], [], [e]. split; [done|]. rewrite app_nil_r.
  split; [done|]. constructor; [by apply C_chunk_ok|constructor].
Qed.

Lemma keeps_print l : keeps (machine_ok R C) (λ _, True) (print l).
Proof using R_saved C_chunk_ok. untouched. Qed.

Lemma keeps_assign l : keeps (machine_ok R C) (λ _, True) (assign_last_speaker l).
Proof using R_saved C_chunk_ok. untouched. Qed.

Lemma keeps_read : keeps (machine_ok R C) (λ _, True) read_last_speaker.
Proof using R_saved C_chunk_ok. untouched. Qed.



Lemma keeps_select_discussion did :
  keeps (machine_ok R C) (λ _, True) (select_discussion did).
Proof using R_saved C_chunk_ok. untouched. Qed.

Lemma keeps_select_roles did : keeps (machine_ok R C) (λ _, True) (select_roles did).
Proof using R_saved C_chunk_ok. untouched. Qed.



Lemma keeps_save_msg did sender content :
  keeps (machine_ok R C) (λ _, True) (_save_msg did sender content).
Proof using R_saved C_chunk_ok.
  apply keeps_extended. intros s.
  destruct (save_msg_spec did sender content s) as (t & s' & -> & Hev & _).
  eexists _, [], [], []. split; [exact Hev|].
  split; [apply R_saved|constructor].
Qed.


Lemma keeps_generate_stream p :
  keeps (machine_ok R C) (Forall (λ t, t ≠ [])) (generate_stream p).
Proof using R_saved C_chunk_ok.
  intros s Hs. split.
  - assert (Hk : keeps (machine_ok R C) (λ _ : list str, True) (generate_stream p)).
    { apply keeps_extended. intros s0.
      destruct (generate_stream_spec p s0)
        as (tokens & s' & lines & -> & Hev & _).
      eexists [], _, _, []. split; [exact Hev|]. rewrite app_nil_r.
      split; [done|constructor]. }
    by apply Hk.
  - unfold generate_stream, bind, call_service_stream, print, ret.
    destruct (generate_content_stream _ (world s)) as [[chunks [msg|]] w];
      cbn [fst snd]; intros tokens Heq.
    + assert (tokens = filter (λ t : str, t ≠ []) chunks
                         ++ [nl ++ lit "[System Error: " ++ msg ++ lit "]"])
        as -> by congruence.
      apply Forall_app. split.
      * apply Forall_forall. by intros t [? _]%list_elem_of_filter.
      * by repeat constructor.
    + assert (tokens = filter (λ t : str, t ≠ []) chunks) as -> by congruence.
      apply Forall_forall. by intros t [? _]%list_elem_of_filter.
Qed.

Lemma keeps_turn_decide did task roles_map turn :
  keeps (machine_ok R C) (λ _, True) (turn_decide did task roles_map turn).
Proof using R_saved C_chunk_ok.
  apply keeps_extended. intros s.
  destruct (turn_decide_spec did task roles_map turn s)
    as (r & s' & lines & -> & Hev & _).
  eexists [], _, _, _. split; [exact Hev|]. rewrite app_nil_r.
  split; [done|]. constructor; [by apply C_chunk_ok|constructor].
Qed.

Lemma keeps_generate_report did task goal :
  keeps (machine_ok R C) (λ _, True) (_generate_report did task goal).
Proof using R_saved C_chunk_ok.
  apply keeps_extended. intros s.
  destruct (generate_report_spec did task goal s)
    as (report & s' & lines & -> & Hev & _).
  eexists [], _, _, []. split; [exact Hev|]. rewrite app_nil_r.
  split; [done|constructor].
Qed.

Lemma keeps_turn_speak did task roles_map turn history d :
  keeps (machine_ok R C) (λ _, True) (turn_speak did task roles_map turn history d).
Proof using R_saved C_chunk_ok.
  unfold turn_speak.
  eapply keeps_bind; [by apply (keeps_lift _ (λ _, True))|]. intros ns _.
  eapply keeps_bind; [by apply (keeps_lift _ (λ _, True))|]. intros ins _.
  eapply keeps_bind; [by apply (keeps_lift _ (λ _, True))|]. intros sp _.
  eapply keeps_bind; [apply keeps_assign|]. intros _ _.
  eapply keeps_bind; [apply keeps_save_msg|]. intros _ _.
  eapply keeps_bind; [by apply keeps_yield|]. intros _ _.
  eapply keeps_bind; [by apply keeps_yield|]. intros _ _.
  eapply keeps_bind; [by apply keeps_yield|]. intros _ _.
  eapply keeps_bind; [apply keeps_generate_stream|]. intros tokens Htokens.
  eapply keeps_bind.
  { apply keeps_for_each. intros t Ht. apply keeps_yield.
    rewrite Forall_forall in Htokens. by apply Htokens. }
  intros _ _.
  eapply keeps_bind; [by apply keeps_yield|]. intros _ _.
  apply keeps_save_msg.
Qed.

Lemma keeps_attempt did task roles_map turn :
  keeps (machine_ok R C) (λ _, True) (attempt did task roles_map turn).
Proof using R_saved C_chunk_ok.
  unfold attempt. apply keeps_try; [|intros e; apply keeps_print].
  unfold turn_body. eapply keeps_bind; [apply keeps_turn_decide|].
  intros hd _. apply keeps_turn_speak.
Qed.

Lemma keeps_run_stream did : keeps (machine_ok R C) (λ _, True) (run_stream did).
Proof using R_saved C_chunk_ok.
  unfold run_stream.
  eapply keeps_bind; [apply keeps_select_discussion|]. intros disc _.
  eapply keeps_bind; [apply keeps_select_roles|]. intros rows _.
  destruct disc as [disc|]; [|by apply keeps_ret].
  eapply keeps_bind; [apply keeps_assign|]. intros _ _.
  eapply keeps_bind.
  { apply keeps_for_each. intros turn _. apply keeps_attempt. }
  intros _ _.
  eapply keeps_bind; [by apply keeps_yield|]. intros _ _.
  eapply keeps_bind; [apply keeps_generate_report|]. intros report _.
  by apply keeps_yield.
Qed.


End Invariants.

(** ** The database across the two operations *)



Lemma store_eq (d d' : store) :
  discussions d = discussions d' → messages d = messages d' →
  roles d = roles d' → d = d'.
Proof. destruct d, d'. cbn. by intros -> -> ->. Qed.

Section Database.

Context `{Env}.





Lemma create_discussion_collision task s :
  (uuid4 (world s)).1 ∈ d_id <$> discussions (db s) →
  ∃ s',
    create_discussion task s = (raise IntegrityError, s')
    ∧ db s' = db s
    ∧ length (requests s') = length (requests s) + 2.
Proof.
  intros Hused.
  unfold create_discussion, bind, new_uuid, _select_best_team,
    _define_strategic_goal, bind, ret.
  destruct (uuid4 (world s)) as [did w]. cbn [fst] in *.
  set (s0 := set_world w s).
  destruct (generate_sync_spec
              (TeamPrompt task
                 ((λ a, (a_id a, a_role a, take 50 (a_description a)))
                    <$> AGENT_POOL)) 1 true s0)
    as (res & s1 & lines1 & -> & Hev1 & _ & _).
  destruct (generate_sync_spec (GoalPrompt task) 7 false s1)
    as (goal & s2 & lines2 & -> & Hev2 & _ & _).
  unfold now at 1. destruct (now_isoformat (world s2)) as [created w3].
  unfold insert_discussion.
  assert (Hdb : db (set_world w3 s2) = db s).
  { cbn [set_world db]. apply store_eq.
    - by rewrite (ev_discussions _ _ _ _ _ _ Hev2),
        (ev_discussions _ _ _ _ _ _ Hev1).
    - by rewrite (ev_messages _ _ _ _ _ _ Hev2),
        (ev_messages _ _ _ _ _ _ Hev1), !app_nil_r.
    - by rewrite (ev_roles _ _ _ _ _ _ Hev2), (ev_roles _ _ _ _ _ _ Hev1). }
  rewrite Hdb. cbn [d_id]. rewrite bool_decide_eq_true_2 by done.
  eexists. split; [reflexivity|]. split; [exact Hdb|].
  cbn [set_world requests].
  rewrite (ev_requests _ _ _ _ _ _ Hev2), (ev_requests _ _ _ _ _ _ Hev1).
  rewrite !length_app. cbn [length]. subst s0. cbn [set_world requests]. lia.
Qed.

(** X8: when the new id is already the id of a discussion, [create_discussion]
    raises after its two requests to the service and leaves the database as
    it was. *)
Theorem X8_create_discussion_on_an_id_in_use task s :
  (uuid4 (world s)).1 ∈ d_id <$> discussions (db s) →
  (create_discussion task s).1 = raise IntegrityError
  ∧ db (create_discussion task s).2 = db s
  ∧ length (requests (create_discussion task s).2) = length (requests s) + 2.
Proof.
  intros Hused.
  by destruct (create_discussion_collision task s Hused) as (s' & -> & ? & ?).
Qed.



(** X21: no [stream_chunk] event of a run carries the empty text. *)
Theorem X21_no_empty_chunk_is_streamed did s :
  Forall chunk_ok (events_of_run did s).
Proof.
  unfold events_of_run.
  destruct (keeps_run_stream (λ _, True) chunk_ok (λ _ _ _ _ _ _, I)
              (λ _ He, He) did (start_generator s)) as [[_ Hout] _]; [|done].
  split; [done|]. cbn [start_generator set_out out]. constructor.
Qed.

(** X7: with an empty catalog every response gives the empty team:
    [create_discussion] then stores the discussion and its opening message,
    which still announces five experts, and no role row. *)
Theorem X7_create_discussion_with_an_empty_catalog task s :
  AGENT_POOL = [] →
  (uuid4 (world s)).1 ∉ d_id <$> discussions (db s) →
  ∃ goal created opening s',
    create_discussion task s
    = (ok ((uuid4 (world s)).1, [], goal, opening_message goal []), s')
    ∧ roles (db s') = roles (db s)
    ∧ discussions (db s')
      = discussions (db s)
          ++ [{| d_id := (uuid4 (world s)).1; d_task := task; d_goal := goal;
                 d_status := lit "active"; d_created_at := created |}]
    ∧ messages (db s') = messages (db s) ++ [opening]
    ∧ m_content opening = opening_message goal [].
Proof.
  intros Hpool Hfresh.
  destruct (create_discussion_spec task s Hfresh)
    as (res & goal & created & opening & s' & Heq & Hd & Hr & Hm & _ & _ & Hc).
  rewrite (team_of_empty_catalog res Hpool) in *.
  exists goal, created, opening, s'. split; [exact Heq|].
  split; [by rewrite Hr, app_nil_r|]. done.
Qed.

(** X10: a discussion that [create_discussion] has made can be run: it is found
    under the returned id with the task, the returned goal and the status
    [active], and the run on it ends with the [finished] event. *)
Theorem X10_a_created_discussion_runs task s :
  (uuid4 (world s)).1 ∉ d_id <$> discussions (db s) →
  ∃ roles_desc goal pm_msg created s' report,
    create_discussion task s
    = (ok ((uuid4 (world s)).1, roles_desc, goal, pm_msg), s')
    ∧ find_discussion (uuid4 (world s)).1 (db s')
      = Some {| d_id := (uuid4 (world s)).1; d_task := task; d_goal := goal;
                d_status := lit "active"; d_created_at := created |}
    ∧ last (events_of_run (uuid4 (world s)).1 s') = Some (Finished report).
Proof.
  intros Hfresh.
  destruct (create_discussion_spec task s Hfresh)
    as (res & goal & created & opening & s' & Heq & Hd & _).
  set (did := (uuid4 (world s)).1) in *.
  set (row := {| d_id := did; d_task := task; d_goal := goal;
                 d_status := lit "active"; d_created_at := created |}).
  assert (Hfind : find_discussion did (db s') = Some row).
  { unfold find_discussion. rewrite Hd.
    rewrite list_find_app_r.
    - cbn [list_find]. rewrite decide_True by done. done.
    - apply list_find_None, Forall_forall. intros r Hr Hid.
      apply Hfresh. rewrite <- Hid. by apply list_elem_of_fmap_2. }
  eexists _, goal, _, created, s'.
  destruct (run_stream_found did row (start_generator s') Hfind)
    as (s'' & msgs & lines & lines' & rqs & segs & report & Hrun & Hev & _).
  exists report. split; [exact Heq|]. split; [exact Hfind|].
  unfold events_of_run. rewrite Hrun. cbn [snd].
  rewrite (ev_out _ _ _ _ _ _ Hev). cbn [start_generator set_out out app].
  change [closing_status; Finished report]
    with ([closing_status] ++ [Finished report]).
  by rewrite app_assoc, last_snoc.
Qed.

End Database.

(** ** The claims on scripted runs *)

Import Scenario.

Lemma pool6_has_defaults_once : has_defaults_once pool6.
Proof.
  intros d Hd. unfold defaults in Hd.
  repeat (apply elem_of_cons in Hd as [->|Hd]; [by vm_compute|]).
  by apply elem_of_nil in Hd.
Qed.

(** C1 on a machine with an empty database, where the service answers the
    team selection with a text that holds no list. *)
Lemma C1_witness :
  length (roles (db (create_discussion (lit "Launch a subscription coffee box")
                       (machine pool6 empty_store
                          (says [Text (lit "no list here")]))).2)) = 5.
Proof.
  destruct (C1_create_discussion_persists_five_roles
              (lit "Launch a subscription coffee box")
              (machine pool6 empty_store (says [Text (lit "no list here")])))
    as (value & s' & rows & Heq & _ & Hroles & Hlen & _).
  - apply pool6_has_defaults_once.
  - apply not_elem_of_nil.
  - apply not_elem_of_nil.
  - rewrite Heq. cbn [snd]. rewrite Hroles. exact Hlen.
Defined.

(** C2 on a discussion without any assigned role and a service that blocks
    every request. *)
Lemma C2_witness :
  count_events "finished" (events_of_run (lit "d0") (machine pool6 store0 silent))
  = 1.
Proof.
  destruct (C2_run_stream_ends_with_finished (lit "d0") the_discussion
              (machine pool6 store0 silent))
    as (segs & report & _ & _ & _ & _ & _ & Hcount).
  - reflexivity.
  - exact Hcount.
Defined.





(** C5 on a run whose ten turns all run to their end. *)
Lemma C5_witness :
  count_events "message"
    (events_of_run (lit "d0") (machine pool6 store2 ten_turns)) = 10
  ∧ count_events "stream_start"
      (events_of_run (lit "d0") (machine pool6 store2 ten_turns)) = 10.
Proof.
  destruct (C5_events_of_a_run_without_failure (lit "d0") the_discussion
              (machine pool6 store2 ten_turns))
    as (segs & report & _ & _ & Hm & Hs & _).
  - reflexivity.
  - by vm_compute.
  - by split.
Defined.

(** C7 on an id that has no row. *)
Lemma C7_witness :
  events_of_run (lit "unknown") (machine pool6 store2 ten_turns) = [].
Proof.
  destruct (C7_unknown_discussion (lit "unknown")
              (machine pool6 store2 ten_turns)) as [_ Hnone].
  - reflexivity.
  - exact Hnone.
Defined.

(** C10 on two responses with the same ids, in another order and with a
    repetition. *)
Lemma C10_witness :
  team_of_response (H:=env pool6)
    (id_list ["tech_lead"%string; "designer"%string])
  = team_of_response (H:=env pool6)
      (id_list ["designer"%string; "tech_lead"%string; "designer"%string]).
Proof.
  destruct (C10_team_depends_on_the_set_of_ids (H:=env pool6)
              (id_list ["tech_lead"%string; "designer"%string])
              (id_list ["designer"%string; "tech_lead"%string;
                        "designer"%string])
              [JStr (lit "tech_lead"); JStr (lit "designer")]
              [JStr (lit "designer"); JStr (lit "tech_lead");
               JStr (lit "designer")])
    as [Hsame _].
  - reflexivity.
  - reflexivity.
  - intros j. rewrite !elem_of_cons, !elem_of_nil. tauto.
  - exact Hsame.
Defined.

(** ** The further properties on scripted runs *)


(** X3 on a response with text around an empty list, on one without any
    bracket and on one whose list is not closed. *)
Lemma X3_witness :
  parse_ids (H:=env pool6)
    (lit "team: " ++ [c_lbracket] ++ [] ++ [c_rbracket] ++ lit " done")
  = ok (JList [])
  ∧ parse_ids (H:=env pool6) (lit "7") = ok (JNum (lit "7"))
  ∧ parse_ids (H:=env pool6) (lit "team: " ++ [c_lbracket] ++ lit "7")
    = raise JSONDecodeError.
Proof.
  destruct (X3_parse_ids_ignores_surrounding_text (H:=env pool6))
    as (Hfound & Hnone & Hopen).
  split; [|split].
  - rewrite Hfound; [reflexivity| |].
    + apply (bool_decide_unpack _). by vm_compute.
    + apply not_elem_of_nil.
  - rewrite Hnone; [reflexivity|].
    apply (bool_decide_unpack _). by vm_compute.
  - rewrite Hopen; [reflexivity| |].
    + apply (bool_decide_unpack _). by vm_compute.
    + apply (bool_decide_unpack _). by vm_compute.
Defined.

(** X4 on a response with text around an empty object and on one without any
    brace. *)
Lemma X4_witness :
  parse_object (H:=env pool6)
    (lit "Sure: " ++ [c_lbrace] ++ [] ++ [c_rbrace] ++ lit " ok")
  = ok (JDict [])
  ∧ parse_object (H:=env pool6) (lit "7") = ok (JNum (lit "7")).
Proof.
  destruct (X4_parse_object_ignores_surrounding_text (H:=env pool6))
    as (Hfound & Hnone).
  split.
  - rewrite Hfound; [reflexivity| |].
    + apply (bool_decide_unpack _). by vm_compute.
    + apply (bool_decide_unpack _). by vm_compute.
  - rewrite Hnone; [reflexivity|].
    apply (bool_decide_unpack _). by vm_compute.
Defined.

(** X5 on the catalog of six and a response that holds no list. *)
Lemma X5_witness :
  length (team_of_response (H:=env pool6) (lit "no list here")) ≤ 5
  ∧ NoDup (a_id <$> team_of_response (H:=env pool6) (lit "no list here")).
Proof.
  destruct (X5_team_of_distinct_catalog_entries (H:=env pool6)
              (lit "no list here")) as [_ Hbounds].
  apply Hbounds. apply (bool_decide_unpack _). by vm_compute.
Defined.

(** X6 on a service that blocks the request. *)
Lemma X6_witness :
  (_select_best_team (lit "Launch a subscription coffee box")
     (machine pool6 empty_store silent)).1
  = ok (priority_team (H:=env pool6)).
Proof.
  apply X6_team_after_service_failure.
  - reflexivity.
  - intros text Htext. vm_compute in Htext. discriminate Htext.
Defined.

(** X7 on an empty catalog and an empty database. *)
Lemma X7_witness :
  roles (db (create_discussion (H:=env [])
               (lit "Launch a subscription coffee box")
               (machine [] empty_store silent)).2) = [].
Proof.
  destruct (X7_create_discussion_with_an_empty_catalog (H:=env [])
              (lit "Launch a subscription coffee box")
              (machine [] empty_store silent))
    as (goal & created & first_message & s' & Heq & Hroles & _).
  - reflexivity.
  - apply not_elem_of_nil.
  - rewrite Heq. exact Hroles.
Defined.

(** X8 on a database that has a discussion under the id that [uuid4] gives
    next. *)
Lemma X8_witness :
  (create_discussion (lit "Launch a subscription coffee box")
     (machine pool6 store2 silent)).1 = raise IntegrityError.
Proof.
  apply X8_create_discussion_on_an_id_in_use.
  vm_compute. apply list_elem_of_here.
Defined.


(** X10 on an empty database and a service that blocks every request. *)
Lemma X10_witness :
  ∃ report,
    last (events_of_run (lit "d0")
            (create_discussion (lit "Launch a subscription coffee box")
               (machine pool6 empty_store silent)).2)
    = Some (Finished report).
Proof.
  destruct (X10_a_created_discussion_runs
              (lit "Launch a subscription coffee box")
              (machine pool6 empty_store silent))
    as (roles_desc & goal & pm_msg & created & s' & report & Heq & _ & Hlast).
  - apply not_elem_of_nil.
  - exists report. rewrite Heq. exact Hlast.
Defined.

(** X11 on the two role rows of the scripted discussion. *)
Lemma X11_witness :
  (build_roles_map (H:=env pool6) (roles store2)).*1
  = r_role_name <$> roles store2.
Proof.
  destruct (X11_candidates_are_the_distinct_role_names (H:=env pool6)
              (roles store2)) as (_ & _ & _ & Hsame).
  apply Hsame. apply (bool_decide_unpack _). by vm_compute.
Defined.

(** X12 on the first of the two role rows. *)
Lemma X12_witness :
  dict_get (build_roles_map (H:=env pool6) (roles store2)) (lit "Analyst")
  = Some (resolve_agent (H:=env pool6) (lit "strategy_consultant")).
Proof.
  apply (X12_role_map_entry_comes_from_the_last_row (H:=env pool6) []
           (role_of (entry "strategy_consultant" "Analyst"))
           [role_of (entry "financial_controller" "Builder")]).
  apply (bool_decide_unpack _). by vm_compute.
Defined.

(** X13 in the first turn of a run with a service that blocks every
    request. *)
Lemma X13_witness :
  ∃ s',
    attempt (lit "d0") (d_task the_discussion)
      (build_roles_map (H:=env pool6) (roles store2)) 1
      (first_turn pool6 store2 silent)
    = (ok tt, s')
    ∧ turn_errors (console s') = [KeyError].
Proof.
  destruct (X13_coordinator_failure_ends_the_turn (lit "d0")
              (d_task the_discussion)
              (build_roles_map (H:=env pool6) (roles store2)) 1
              (first_turn pool6 store2 silent))
    as (s' & Heq & _ & Herrors & _).
  - reflexivity.
  - intros text Htext. vm_compute in Htext. discriminate Htext.
  - exists s'. split; [exact Heq|]. rewrite Herrors. reflexivity.
Defined.

(** X14 in the first turn of a run with two assigned roles, where the
    service answers the coordinator with a text that is no JSON. *)
Lemma X14_witness :
  ∃ s',
    attempt (lit "d0") (d_task the_discussion)
      (build_roles_map (H:=env pool6) (roles store2)) 1
      (first_turn pool6 store2 (says [Text (lit "no object here")]))
    = (ok tt, s')
    ∧ last_speaker s' = lit "Analyst".
Proof.
  destruct (X14_unparsable_decision_gives_the_first_candidate (lit "d0")
              (d_task the_discussion)
              (build_roles_map (H:=env pool6) (roles store2)) 1
              (first_turn pool6 store2 (says [Text (lit "no object here")]))
              (lit "no object here") JSONDecodeError
              (lit "Analyst") [lit "Builder"])
    as (s' & tokens & i1 & t1 & i2 & t2 & Heq & _ & _ & _ & Hlast).
  - by vm_compute.
  - by vm_compute.
  - by vm_compute.
  - exists s'. by split.
Defined.

(** X15 on the discussion without any assigned role. *)
Lemma X15_witness :
  ∃ s',
    attempt (H:=env pool6) (lit "d0") (d_task the_discussion) [] 1
      (first_turn pool6 store0 (says [Text (lit "no object here")]))
    = (ok tt, s')
    ∧ turn_errors (console s') = [IndexError].
Proof.
  destruct (X15_unparsable_decision_without_roles (lit "d0")
              (d_task the_discussion) 1
              (first_turn pool6 store0 (says [Text (lit "no object here")]))
              (lit "no object here") JSONDecodeError)
    as (s' & Heq & _ & Herrors & _).
  - by vm_compute.
  - by vm_compute.
  - exists s'. split; [exact Heq|]. rewrite Herrors. reflexivity.
Defined.

(** X18 on a run whose ten turns all run to their end: 21 requests. *)
Lemma X18_witness :
  length (requests (run_stream (lit "d0")
                      (start_generator (machine pool6 store2 ten_turns))).2)
  = 21.
Proof.
  destruct (X18_requests_and_failures_of_a_run (lit "d0") the_discussion
              (machine pool6 store2 ten_turns))
    as (new_requests & new_lines & new_messages & Hrequests & _ & _
        & Hlength & _).
  - reflexivity.
  - rewrite Hrequests, length_app, Hlength. by vm_compute.
Defined.



